(** * image-search-api: the crawl-and-snapshot worker (worker.js)

    A shallow embedding of the Cloudflare Worker in [worker.js] and the
    properties of its crawl engine, snapshot store, scheduler and read
    routes.

    Conventions of the embedding.
    - A JavaScript string is a Rocq [string]; its characters are read as
      code points below 256.  Every operation below is exact on ASCII,
      which is all that a slug, a wildcard query or a catalogue URL
      contains.
    - A JavaScript number that the worker uses as an integer (cursor,
      page index, counters, epoch seconds) is a [Z].
    - The R2 object [catalog.json] is kept in parsed form
      ([RawSnapshot]); [stringify] is the [JSON.stringify]/[JSON.parse]
      round trip of an in-memory snapshot.
    - The world outside the module (bucket, upstream site, clock) is the
      record [Env], threaded through every operation together with a
      chronological [trace] of the writes and page fetches performed.
    - An exception is the [Throw] case of [result]. *)

From Stdlib Require Import ZArith Bool List Ascii String Lia.
From Stdlib Require Import Sorting.Sorted Sorting.Permutation.
Import ListNotations.

Local Open Scope string_scope.
Local Open Scope list_scope.
Local Open Scope Z_scope.

Set Implicit Arguments.

(* ================================================================== *)
(** * Part I. Definitions *)
(* ================================================================== *)

(** ** JavaScript string primitives *)

Definition code (c : ascii) : nat := nat_of_ascii c.

Definition in_range (lo hi : nat) (c : ascii) : bool :=
  ((lo <=? code c) && (code c <=? hi))%nat.

Definition is_upper : ascii -> bool := in_range 65 90.
Definition is_lower : ascii -> bool := in_range 97 122.
Definition is_digit : ascii -> bool := in_range 48 57.

Definition is_one_of (cs : string) (c : ascii) : bool :=
  existsb (Ascii.eqb c) (list_ascii_of_string cs).

(** [String.prototype.toLowerCase], one character: A-Z and the Latin-1
    capitals U+00C0..U+00DE (U+00D7 is the multiplication sign). *)
Definition lower_char (c : ascii) : ascii :=
  if is_upper c || (in_range 192 222 c && negb (code c =? 215)%nat)
  then ascii_of_nat (code c + 32)
  else c.

Fixpoint toLowerCase (s : string) : string :=
  match s with
  | EmptyString => EmptyString
  | String c r => String (lower_char c) (toLowerCase r)
  end.

(** White space removed by [String.prototype.trim]: TAB, LF, VT, FF, CR,
    SP and NBSP. *)
Definition is_space (c : ascii) : bool :=
  in_range 9 13 c || (code c =? 32)%nat || (code c =? 160)%nat.

Fixpoint trimStart (s : string) : string :=
  match s with
  | EmptyString => EmptyString
  | String c r => if is_space c then trimStart r else s
  end.

Definition reverse (s : string) : string :=
  string_of_list_ascii (rev (list_ascii_of_string s)).

Definition trimEnd (s : string) : string := reverse (trimStart (reverse s)).

Definition trim (s : string) : string := trimEnd (trimStart s).

Definition len (s : string) : Z := Z.of_nat (String.length s).

(** [s.slice(start, end)]; [None] is an omitted [end].  Negative indexes
    count from the end of the string. *)
Definition slice_index (s : string) (i : Z) : Z :=
  if i <? 0 then Z.max (len s + i) 0 else Z.min i (len s).

Definition slice (s : string) (start : Z) (end_ : option Z) : string :=
  let from := slice_index s start in
  let to := match end_ with Some e => slice_index s e | None => len s end in
  substring (Z.to_nat from) (Z.to_nat (to - from)) s.

Definition startsWith (s t : string) : bool := prefix t s.

Definition endsWith (s t : string) : bool :=
  let n := String.length s in
  let m := String.length t in
  (m <=? n)%nat && String.eqb (substring (n - m) m s) t.

Fixpoint includes (s t : string) : bool :=
  prefix t s ||
  match s with
  | EmptyString => false
  | String _ r => includes r t
  end.

(** ** Percent encoding *)

Definition hex_digit (n : nat) : ascii :=
  match get n "0123456789ABCDEF" with
  | Some c => c
  | None => "0"%char
  end.

Definition percent (n : nat) : string :=
  String "%" (String (hex_digit (n / 16)) (String (hex_digit (n mod 16)) "")).

(** Characters that [encodeURIComponent] leaves alone. *)
Definition uri_unreserved (c : ascii) : bool :=
  is_upper c || is_lower c || is_digit c || is_one_of "-_.!~*'()" c.

(** A code point from 128 to 255 is written as its two UTF-8 bytes. *)
Definition encode_char (c : ascii) : string :=
  if uri_unreserved c then String c ""
  else if (code c <? 128)%nat then percent (code c)
  else (percent (192 + code c / 64) ++ percent (128 + code c mod 64))%string.

Fixpoint encodeURIComponent (s : string) : string :=
  match s with
  | EmptyString => EmptyString
  | String c r => (encode_char c ++ encodeURIComponent r)%string
  end.

Definition hex_value (c : ascii) : option nat :=
  if is_digit c then Some (code c - 48)%nat
  else if in_range 65 70 c then Some (code c - 55)%nat
  else if in_range 97 102 c then Some (code c - 87)%nat
  else None.

(** [decodeURIComponent] on ASCII escapes.  [None] is the URIError of a
    malformed escape; an escape of a byte above 127 (a multi-byte UTF-8
    sequence) lies outside this embedding and is answered [None] too.  The
    worker only decodes what its path pattern captured, which holds no
    percent sign (lemma [decode_capture]). *)
Fixpoint decodeURIComponent (s : string) : option string :=
  match s with
  | EmptyString => Some EmptyString
  | String c r =>
      if Ascii.eqb c "%" then
        match r with
        | String h (String l r') =>
            match hex_value h, hex_value l with
            | Some a, Some b =>
                if (16 * a + b <? 128)%nat
                then option_map (String (ascii_of_nat (16 * a + b)))
                                (decodeURIComponent r')
                else None
            | _, _ => None
            end
        | _ => None
        end
      else option_map (String c) (decodeURIComponent r)
  end.

(** ** Slug grammar and the directory-image path pattern *)

Definition ORIGIN : string := "https://images.chainguard.dev".
Definition MAX_PAGES_CAP : Z := 5000.
Definition BATCH_PAGES_DEFAULT : Z := 5.

(** [[a-z0-9]] and [[a-z0-9._+\-]] of [SLUG_RE]. *)
Definition slug_head (c : ascii) : bool := is_lower c || is_digit c.
Definition slug_tail (c : ascii) : bool := slug_head c || is_one_of "._+-" c.

Fixpoint all_chars (p : ascii -> bool) (s : string) : bool :=
  match s with
  | EmptyString => true
  | String c r => p c && all_chars p r
  end.

(** [SLUG_RE.test(s)]: one [slug_head] character, then [slug_tail]
    characters up to the end of the string. *)
Definition SLUG_RE_test (s : string) : bool :=
  match s with
  | EmptyString => false
  | String c r => slug_head c && all_chars slug_tail r
  end.

Definition BAD_SLUGS : list string :=
  ["fips"; "free"; "validated"; "hardened"; "stig"; "latest"; "changed";
   "last"; "tag"].

Definition BAD_SLUGS_has (s : string) : bool := existsb (String.eqb s) BAD_SLUGS.

(** [[A-Za-z0-9]], [[A-Za-z0-9._+\-]] and the word characters of [\b]. *)
Definition cap_head (c : ascii) : bool := is_upper c || is_lower c || is_digit c.
Definition cap_tail (c : ascii) : bool := cap_head c || is_one_of "._+-" c.
Definition is_word (c : ascii) : bool := cap_head c || Ascii.eqb c "_".

(** Length of the longest prefix of [s] made of [p] characters. *)
Fixpoint run_length (p : ascii -> bool) (s : string) : nat :=
  match s with
  | EmptyString => O
  | String c r => if p c then S (run_length p r) else O
  end.

Definition word_at (s : string) (k : nat) : bool :=
  match get k s with
  | Some c => is_word c
  | None => false
  end.

(** [\b] between positions [k-1] and [k] of [s], for [k >= 1]. *)
Definition boundary (s : string) (k : nat) : bool :=
  xorb (word_at s (k - 1)) (word_at s k).

(** The greedy star gives back one character at a time until [\b] holds:
    capture lengths [k], [k-1], ..., 1 are tried in that order. *)
Fixpoint backtrack (s : string) (k : nat) : option string :=
  match k with
  | O => None
  | S k' => if boundary s k then Some (substring 0 k s) else backtrack s k'
  end.

(** The capturing group of the path pattern, a character of [cap_head]
    and a greedy run of [cap_tail], followed by a word boundary, matched at
    the start of [s]. *)
Definition match_group (s : string) : option string :=
  match s with
  | EmptyString => None
  | String c r =>
      if cap_head c then backtrack s (S (run_length cap_tail r)) else None
  end.

Definition IMAGE_PATH : string := "/directory/image/".

Definition match_here (s : string) : option string :=
  if prefix IMAGE_PATH s
  then match_group (substring (String.length IMAGE_PATH)
                              (String.length s - String.length IMAGE_PATH) s)
  else None.

(** [exec] of the path pattern of [extractSlugFromUrl] on [s]: the literal
    [IMAGE_PATH], the capturing group, a word boundary.  The result is the
    capture of the leftmost match. *)
Fixpoint exec_image_path (s : string) : option string :=
  match match_here s with
  | Some m => Some m
  | None =>
      match s with
      | EmptyString => None
      | String _ r => exec_image_path r
      end
  end.

(** [extractSlugFromUrl(url)]; [None] is [null].  An absent or empty
    [url] is falsy. *)
Definition extractSlugFromUrl (url : option string) : option string :=
  match url with
  | None => None
  | Some EmptyString => None
  | Some u =>
      match exec_image_path u with
      | None => None
      | Some m =>
          match decodeURIComponent m with
          | None => None
          | Some d =>
              let slug := toLowerCase d in
              if SLUG_RE_test slug && negb (BAD_SLUGS_has slug)
              then Some slug else None
          end
      end
  end.

(** [extractSlugFromHref] has the same body as [extractSlugFromUrl]. *)
Definition extractSlugFromHref (href : option string) : option string :=
  extractSlugFromUrl href.

(** ** Items *)

Record Item := { name : string; url : string }.

(** [{ name: slug, url: `${ORIGIN}/directory/image/${encodeURIComponent(slug)}` }] *)
Definition mkCard (slug : string) : Item :=
  {| name := slug;
     url := (ORIGIN ++ "/directory/image/" ++ encodeURIComponent slug)%string |}.

Definition has_key (k : string) (keys : list string) : bool :=
  existsb (String.eqb k) keys.

(** [parseCards(html)].  The scan of [linkRe] over the markup is taken as
    done: a page is the sequence of [href] values of its anchors, in
    document order. *)
Fixpoint parseCards_loop (hrefs : list string) (out : list Item)
    (seen : list string) : list Item :=
  match hrefs with
  | [] => out
  | h :: rest =>
      match extractSlugFromHref (Some h) with
      | None => parseCards_loop rest out seen
      | Some slug =>
          if has_key slug seen then parseCards_loop rest out seen
          else parseCards_loop rest (out ++ [mkCard slug]) (slug :: seen)
      end
  end.

Definition parseCards (hrefs : list string) : list Item :=
  parseCards_loop hrefs [] [].

(** ** Sorting *)

(** Lexicographic comparison of two strings under a weight per character. *)
Fixpoint lex_compare (key : ascii -> nat) (a b : string) : comparison :=
  match a, b with
  | EmptyString, EmptyString => Eq
  | EmptyString, String _ _ => Lt
  | String _ _, EmptyString => Gt
  | String c a', String d b' =>
      match Nat.compare (key c) (key d) with
      | Eq => lex_compare key a' b'
      | o => o
      end
  end.

(** The order of [localeCompare(_, "en", { sensitivity: "base" })] is not
    written in worker.js: it is the host's collation for English at primary
    strength.  On the characters of a slug that collation orders
    punctuation, then symbols, then digits, then letters:
    [_ < - < . < + < 0 < ... < 9 < a < ... < z], a capital letter weighing
    as its small letter.  A character outside that alphabet never reaches
    [sortItems] (every sorted name has passed [SLUG_RE]); it is given a
    weight above the letters only to make the function total. *)
Definition collation_weight (c : ascii) : nat :=
  if Ascii.eqb c "_" then 1
  else if Ascii.eqb c "-" then 2
  else if Ascii.eqb c "." then 3
  else if Ascii.eqb c "+" then 4
  else if is_digit c then (code c - 38)
  else if is_lower c then (code c - 67)
  else if is_upper c then (code c - 35)
  else (100 + code c).

Definition localeCompare (a b : string) : comparison :=
  lex_compare collation_weight a b.

(** Place [x] in front of the first element that does not sort before it. *)
Fixpoint insert_item (x : Item) (l : list Item) : list Item :=
  match l with
  | [] => [x]
  | y :: l' =>
      match localeCompare (name x) (name y) with
      | Gt => y :: insert_item x l'
      | _ => x :: l
      end
  end.

(** [items.sort((a, b) => a.name.localeCompare(b.name, "en",
    { sensitivity: "base" }))]: [Array.prototype.sort] is stable, so its
    result is the one a stable insertion sort gives. *)
Definition sortItems (l : list Item) : list Item :=
  fold_right insert_item [] l.

(** [arr.slice(start, end)] with [0 <= start]. *)
Definition array_slice {A : Type} (l : list A) (start end_ : Z) : list A :=
  firstn (Z.to_nat (end_ - start)) (skipn (Z.to_nat start) l).

(** ** Wildcard search *)

Definition matchSlug (slug query : string) : bool :=
  if startsWith query "*" && endsWith query "*" then
    let term := slice query 1 (Some (-1)) in
    includes slug term
  else if startsWith query "*" then
    let term := slice query 1 None in
    endsWith slug term
  else if endsWith query "*" then
    let term := slice query 0 (Some (-1)) in
    startsWith slug term
  else String.eqb slug query.



(** ** Snapshots *)

(** The [seen] object: its own keys (each mapped to [true]) and whether it
    inherits from [Object.prototype].  [freshSnapshot] writes the literal
    [{}], which does; [loadSnapshot] builds it with [Object.create(null)],
    which does not.  The keys are listed in the order they were set; the
    worker never reads that order. *)
Record Seen := { own_keys : list string; inherits : bool }.

(** The property names of [Object.prototype].  Reading one of them from
    an object that inherits gives a function or an object, hence a truthy
    value. *)
Definition OBJECT_PROTOTYPE : list string :=
  ["constructor"; "__defineGetter__"; "__defineSetter__"; "hasOwnProperty";
   "__lookupGetter__"; "__lookupSetter__"; "isPrototypeOf";
   "propertyIsEnumerable"; "toString"; "valueOf"; "__proto__";
   "toLocaleString"].

(** Truthiness of [seen[key]]. *)
Definition seen_get (s : Seen) (key : string) : bool :=
  has_key key (own_keys s) || (inherits s && has_key key OBJECT_PROTOTYPE).

(** [seen[key] = true], for a key that [seen_get] did not find. *)
Definition seen_set (s : Seen) (key : string) : Seen :=
  {| own_keys := own_keys s ++ [key]; inherits := inherits s |}.

(** An in-memory snapshot, as [loadSnapshot] returns it. *)
Record Snapshot := {
  items : list Item;
  seen : Seen;
  cursor : Z;
  lastPage : option Z;
  complete : bool;
  lastUpdated : Z;
  cronTicks : Z
}.

(** What [JSON.parse] may find in the bucket: every field can be missing,
    an item can lack its name or its url. *)
Record RawItem := { raw_name : option string; raw_url : option string }.

Record RawSnapshot := {
  r_items : option (list RawItem);
  r_seen : option (list string);
  r_cursor : option Z;
  r_lastPage : option Z;
  r_complete : option bool;
  r_lastUpdated : option Z;
  r_cronTicks : option Z
}.

(** [x || d] on a number that may be missing: [0] is falsy. *)
Definition num_or (x : option Z) (d : Z) : Z :=
  match x with
  | Some v => if v =? 0 then d else v
  | None => d
  end.

(** [x && p(x)] on a number that may be missing. *)
Definition known_and (x : option Z) (p : Z -> bool) : bool :=
  match x with
  | Some v => negb (v =? 0) && p v
  | None => false
  end.

Definition stringify_item (it : Item) : RawItem :=
  {| raw_name := Some (name it); raw_url := Some (url it) |}.

(** [JSON.parse(JSON.stringify(snap))]. *)
Definition stringify (s : Snapshot) : RawSnapshot :=
  {| r_items := Some (map stringify_item (items s));
     r_seen := Some (own_keys (seen s));
     r_cursor := Some (cursor s);
     r_lastPage := lastPage s;
     r_complete := Some (complete s);
     r_lastUpdated := Some (lastUpdated s);
     r_cronTicks := Some (cronTicks s) |}.

(** ** The world around the worker *)

(** What [fetchWithEdgeCache] can come back with: the request throws, or
    a response arrives with its [ok] flag and the [href] values of its
    markup.  (The edge cache only ever stores [ok] responses.) *)
Inductive FetchOutcome :=
| NetworkError (msg : string)
| HttpResponse (ok : bool) (hrefs : list string).

Inductive Event :=
| EvPut (blob : RawSnapshot)
| EvFetch (page : Z).

Record Env := {
  IMAGES_BUCKET : option RawSnapshot;   (* the object catalog.json, if any *)
  ADMIN_KEY : option string;
  upstream : Z -> FetchOutcome;         (* /directory/<n> *)
  clock : Z;                            (* what epoch() reads *)
  trace : list Event                    (* oldest first *)
}.

Definition epoch (env : Env) : Z := clock env.

Definition log (env : Env) (e : Event) : Env :=
  {| IMAGES_BUCKET := IMAGES_BUCKET env; ADMIN_KEY := ADMIN_KEY env;
     upstream := upstream env; clock := clock env;
     trace := trace env ++ [e] |}.

Inductive result (A : Type) :=
| Ok (a : A)
| Throw (msg : string).

Arguments Ok {A} a.
Arguments Throw {A} msg.

(** ** Snapshot store *)

Definition saveSnapshot (env : Env) (snap : Snapshot) : Env :=
  {| IMAGES_BUCKET := Some (stringify snap); ADMIN_KEY := ADMIN_KEY env;
     upstream := upstream env; clock := clock env;
     trace := trace env ++ [EvPut (stringify snap)] |}.

Definition freshSnapshot (env : Env) : Snapshot :=
  {| items := []; seen := {| own_keys := []; inherits := true |};
     cursor := 1; lastPage := None; complete := false;
     lastUpdated := epoch env; cronTicks := 0 |}.

(** [Array.isArray(snap.items) ? snap.items : []] *)
Definition stored_items (raw : RawSnapshot) : list RawItem :=
  match r_items raw with Some l => l | None => [] end.

(** [slugFromUrl || slugFromName]: a slug from the url is never empty. *)
Definition candidate_of (it : RawItem) : option string :=
  match extractSlugFromUrl (raw_url it) with
  | Some s => Some s
  | None => option_map toLowerCase (raw_name it)
  end.

(** One turn of the [for (const it of items)] loop of [loadSnapshot]. *)
Definition repair_step (acc : list Item * list string) (it : RawItem)
    : list Item * list string :=
  let (minimal, seen) := acc in
  match candidate_of it with
  | None => acc
  | Some EmptyString => acc
  | Some candidate =>
      if negb (SLUG_RE_test candidate) || BAD_SLUGS_has candidate
         || has_key candidate seen
      then acc
      else (minimal ++ [mkCard candidate], seen ++ [candidate])
  end.

(** The repair pass: the [if (obj)] branch of [loadSnapshot], on the
    parsed object. *)
Definition repair (env : Env) (raw : RawSnapshot) : Snapshot :=
  let (minimal, seen) := fold_left repair_step (stored_items raw) ([], []) in
  {| items := sortItems minimal;
     seen := {| own_keys := seen; inherits := false |};
     cursor := num_or (r_cursor raw) 1;
     lastPage := r_lastPage raw;
     complete := match r_complete raw with Some b => b | None => false end;
     lastUpdated := num_or (r_lastUpdated raw) (epoch env);
     cronTicks := num_or (r_cronTicks raw) 0 |}.

Definition loadSnapshot (env : Env) : Env * Snapshot :=
  match IMAGES_BUCKET env with
  | Some raw => (env, repair env raw)
  | None =>
      let fresh := freshSnapshot env in
      (saveSnapshot env fresh, fresh)
  end.

(** ** Crawl engine *)

Record BatchResult := {
  crawledPages : Z;
  addedItems : Z;
  reachedEnd : bool;
  nextCursor : Z;
  total : nat;
  res_lastPage : option Z
}.

Definition fetchDirectoryPage (env : Env) (n : Z) : Env * result (list Item) :=
  let env' := log env (EvFetch n) in
  match upstream env n with
  | NetworkError msg => (env', Throw msg)
  | HttpResponse false _ => (env', Ok [])
  | HttpResponse true hrefs => (env', Ok (parseCards hrefs))
  end.

Definition set_cursor (s : Snapshot) (c : Z) : Snapshot :=
  {| items := items s; seen := seen s; cursor := c; lastPage := lastPage s;
     complete := complete s; lastUpdated := lastUpdated s;
     cronTicks := cronTicks s |}.

Definition set_complete (s : Snapshot) (b : bool) : Snapshot :=
  {| items := items s; seen := seen s; cursor := cursor s;
     lastPage := lastPage s; complete := b; lastUpdated := lastUpdated s;
     cronTicks := cronTicks s |}.

Definition set_items (s : Snapshot) (l : list Item) : Snapshot :=
  {| items := l; seen := seen s; cursor := cursor s; lastPage := lastPage s;
     complete := complete s; lastUpdated := lastUpdated s;
     cronTicks := cronTicks s |}.

Definition set_lastUpdated (s : Snapshot) (t : Z) : Snapshot :=
  {| items := items s; seen := seen s; cursor := cursor s;
     lastPage := lastPage s; complete := complete s; lastUpdated := t;
     cronTicks := cronTicks s |}.

Definition set_cronTicks (s : Snapshot) (t : Z) : Snapshot :=
  {| items := items s; seen := seen s; cursor := cursor s;
     lastPage := lastPage s; complete := complete s;
     lastUpdated := lastUpdated s; cronTicks := t |}.

Definition set_lastPage (s : Snapshot) (n : option Z) : Snapshot :=
  {| items := items s; seen := seen s; cursor := cursor s; lastPage := n;
     complete := complete s; lastUpdated := lastUpdated s;
     cronTicks := cronTicks s |}.

(** One turn of [for (const it of items)] in [crawlBatch]: push the item
    unless [seen] already answers for its name. *)
Definition merge_item (acc : Snapshot * Z) (it : Item) : Snapshot * Z :=
  let (snap, added) := acc in
  if seen_get (seen snap) (name it) then acc
  else ({| items := items snap ++ [it];
           seen := seen_set (seen snap) (name it);
           cursor := cursor snap; lastPage := lastPage snap;
           complete := complete snap; lastUpdated := lastUpdated snap;
           cronTicks := cronTicks snap |},
        added + 1).

Definition merge_page (snap : Snapshot) (added : Z) (page_items : list Item)
    : Snapshot * Z :=
  fold_left merge_item page_items (snap, added).

(** The variables of the [while] loop of [crawlBatch]. *)
Record Loop := {
  l_env : Env;
  l_snap : Snapshot;
  l_crawled : Z;
  l_added : Z;
  l_page : Z
}.

(** The loop, with one unit of [fuel] per turn.  Every turn increments
    [crawledPages], so [steps] turns are enough
    ([crawl_loop_fuel]). *)
Fixpoint crawl_loop (fuel : nat) (steps hardStop : Z) (st : Loop)
    : Env * result Loop :=
  match fuel with
  | O => (l_env st, Ok st)
  | S fuel' =>
      if (l_crawled st <? steps) && (l_page st <=? hardStop) then
        let (env', fetched) := fetchDirectoryPage (l_env st) (l_page st) in
        match fetched with
        | Throw msg => (env', Throw msg)
        | Ok page_items =>
            let crawled := l_crawled st + 1 in
            match page_items with
            | [] =>
                if known_and (lastPage (l_snap st))
                     (fun lp => l_page st >=? lp)
                then (env', Ok {| l_env := env';
                                  l_snap := set_complete (l_snap st) true;
                                  l_crawled := crawled;
                                  l_added := l_added st;
                                  l_page := l_page st + 1 |})
                else crawl_loop fuel' steps hardStop
                       {| l_env := env'; l_snap := l_snap st;
                          l_crawled := crawled; l_added := l_added st;
                          l_page := l_page st + 1 |}
            | _ =>
                let (snap', added') :=
                  merge_page (l_snap st) (l_added st) page_items in
                crawl_loop fuel' steps hardStop
                  {| l_env := env'; l_snap := snap'; l_crawled := crawled;
                     l_added := added'; l_page := l_page st + 1 |}
            end
        end
      else (l_env st, Ok st)
  end.

Definition hard_stop (snap : Snapshot) : Z :=
  Z.min (num_or (lastPage snap) MAX_PAGES_CAP) MAX_PAGES_CAP.

Definition crawlBatch (env : Env) (steps : Z) : Env * result BatchResult :=
  let (env1, snap) := loadSnapshot env in
  let hardStop := hard_stop snap in
  if complete snap then
    (env1, Ok {| crawledPages := 0; addedItems := 0; reachedEnd := true;
                 nextCursor := cursor snap; total := List.length (items snap);
                 res_lastPage := lastPage snap |})
  else
    let page := Z.max 1 (num_or (Some (cursor snap)) 1) in
    match crawl_loop (Z.to_nat steps) steps hardStop
            {| l_env := env1; l_snap := snap; l_crawled := 0; l_added := 0;
               l_page := page |} with
    | (env2, Throw msg) => (env2, Throw msg)
    | (_, Ok st) =>
        let snap1 :=
          if known_and (lastPage (l_snap st)) (fun lp => l_page st >? lp)
          then set_complete (l_snap st) true else l_snap st in
        let snap2 := set_cursor snap1 (l_page st) in
        let snap3 := set_items snap2 (sortItems (items snap2)) in
        let snap4 := set_lastUpdated snap3 (epoch (l_env st)) in
        let env3 := saveSnapshot (l_env st) snap4 in
        (env3, Ok {| crawledPages := l_crawled st; addedItems := l_added st;
                     reachedEnd := complete snap4; nextCursor := cursor snap4;
                     total := List.length (items snap4);
                     res_lastPage := lastPage snap4 |})
    end.

(** ** Scheduler *)

Definition CRON_THRESHOLD : Z := 1440.

(** The part of [scheduled] before the crawl batch: bump the counter,
    reset on the threshold, save. *)
Definition scheduled_tick (env : Env) : Env :=
  let (env1, snap) := loadSnapshot env in
  let snap1 := set_cronTicks snap (num_or (Some (cronTicks snap)) 0 + 1) in
  if cronTicks snap1 >=? CRON_THRESHOLD then
    saveSnapshot env1
      (set_cronTicks (set_cursor (set_complete snap1 false) 1) 0)
  else saveSnapshot env1 snap1.

Definition scheduled (env : Env) : Env * result unit :=
  match crawlBatch (scheduled_tick env) BATCH_PAGES_DEFAULT with
  | (env', Ok _) => (env', Ok tt)
  | (env', Throw msg) => (env', Throw msg)
  end.

(** ** Request handling *)

Fixpoint digits_value (s : string) (acc : Z) : Z :=
  match s with
  | EmptyString => acc
  | String c r =>
      if is_digit c then digits_value r (10 * acc + Z.of_nat (code c - 48))
      else acc
  end.

(** [Number.parseInt(s, 10)]; [None] is [NaN].  Leading white space, an
    optional sign, then the longest run of decimal digits. *)
Definition parseInt (s : string) : option Z :=
  let t := trimStart s in
  let (negative, body) :=
    match t with
    | String c r =>
        if Ascii.eqb c "-" then (true, r)
        else if Ascii.eqb c "+" then (false, r)
        else (false, t)
    | EmptyString => (false, t)
    end in
  match body with
  | EmptyString => None
  | String c _ =>
      if is_digit c
      then Some (if negative then - digits_value body 0
                 else digits_value body 0)
      else None
  end.

(** A decimal numeral this large is read as [Infinity]. *)
Definition isFinite (n : Z) : bool := Z.abs n <? 2 ^ 1024 - 2 ^ 970.

(** [clampInt(v, min, max, fallback)]; the fallback may be [null]. *)
Definition clampInt (v : option string) (min max : Z) (fallback : option Z)
    : option Z :=
  match parseInt (match v with Some s => s | None => "" end) with
  | Some n => if isFinite n then Some (Z.min (Z.max n min) max) else fallback
  | None => fallback
  end.

Definition number (x : option Z) : Z :=
  match x with Some v => v | None => 0 end.

Record Request := {
  method : string;
  pathname : string;
  searchParams : list (string * string);
  x_admin_key : option string
}.

Fixpoint searchParams_get (ps : list (string * string)) (k : string)
    : option string :=
  match ps with
  | [] => None
  | (k', v) :: rest => if String.eqb k k' then Some v else searchParams_get rest k
  end.

Definition non_empty (s : option string) : bool :=
  match s with
  | Some (String _ _) => true
  | _ => false
  end.

(** [k && env.ADMIN_KEY && k === env.ADMIN_KEY] *)
Definition isAdmin (req : Request) (env : Env) : bool :=
  non_empty (x_admin_key req) && non_empty (ADMIN_KEY env) &&
  match x_admin_key req, ADMIN_KEY env with
  | Some k, Some a => String.eqb k a
  | _, _ => false
  end.

(** The JSON bodies the routes answer with. *)
Inductive Body :=
| BNone
| BIndex (endpoints : list string)
| BStatus (tot : nat) (cur : Z) (compl : bool) (lp : option Z)
          (updated ticks : Z)
| BItems (its : list Item)
| BBatch (r : BatchResult)
| BLastPage (lp : option Z) (cur : Z) (compl : bool)
| BRestart (cur : Z) (compl : bool) (lp : option Z)
| BTotal (tot : nat)
| BReset
| BError (msg : string).

Record Response := { status : Z; body : Body }.

Definition json (b : Body) (st : Z) : Response := {| status := st; body := b |}.

Definition ENDPOINTS : list string :=
  ["/v1/status"; "/v1/images?page=1&size=200"; "/v1/search?q=node&size=50";
   "POST /admin/build?steps=5"; "POST /admin/set-lastpage?value=278";
   "POST /admin/restart-crawl"; "POST /admin/repair"; "POST /admin/compact";
   "POST /admin/reset"].

(** The [/v1/images] route. *)
Definition list_images (req : Request) (env : Env) : Env * list Item :=
  let page := number (clampInt (searchParams_get (searchParams req) "page")
                               1 1000000000 (Some 1)) in
  let size := number (clampInt (searchParams_get (searchParams req) "size")
                               1 1000 (Some 200)) in
  let (env1, snap) := loadSnapshot env in
  let itemsSorted := sortItems (items snap) in
  let start := (page - 1) * size in
  (env1, array_slice itemsSorted start (start + size)).

(** The [/v1/search] route. *)
Definition search (req : Request) (env : Env) : Env * list Item :=
  let q := trim (toLowerCase
                   (match searchParams_get (searchParams req) "q" with
                    | Some (String c r) => String c r
                    | _ => EmptyString
                    end)) in
  match q with
  | EmptyString => (env, [])
  | _ =>
      let page := number (clampInt (searchParams_get (searchParams req) "page")
                                   1 1000000000 (Some 1)) in
      let size := number (clampInt (searchParams_get (searchParams req) "size")
                                   1 200 (Some 50)) in
      let (env1, snap) := loadSnapshot env in
      let matches :=
        filter (fun i => matchSlug (toLowerCase (name i)) q) (items snap) in
      let itemsSorted := sortItems matches in
      let start := (page - 1) * size in
      (env1, array_slice itemsSorted start (start + size))
  end.

(** worker.js calls [repairSnapshot] in its [/admin/repair] route and
    nowhere declares it: the module has no function, constant or import of
    that name, and a module's code is strict, so the identifier has no
    binding when the call is evaluated. *)
Definition repairSnapshot : option (Snapshot -> Snapshot) := None.

(** The body of the [/admin/repair] route after its two guards, under a
    binding for [repairSnapshot] or none.  Evaluating an unbound
    identifier throws a ReferenceError. *)
Definition admin_repair (binding : option (Snapshot -> Snapshot)) (env : Env)
    : Env * result Response :=
  let (env1, snap) := loadSnapshot env in
  match binding with
  | None => (env1, Throw "repairSnapshot is not defined")
  | Some f =>
      let repaired := f snap in
      let repaired' := set_items repaired (sortItems (items repaired)) in
      let env2 := saveSnapshot env1 repaired' in
      (env2, Ok (json (BTotal (List.length (items repaired'))) 200))
  end.

(** An admin route: POST only, and only with the key. *)
Definition guarded (req : Request) (env : Env)
    (k : Env -> Env * result Response) : Env * result Response :=
  if negb (String.eqb (method req) "POST")
  then (env, Ok (json (BError "use POST") 405))
  else if negb (isAdmin req env)
  then (env, Ok (json (BError "forbidden") 403))
  else k env.

(** The [try] block of [fetch]. *)
Definition route (req : Request) (env : Env) : Env * result Response :=
  let path := pathname req in
  if String.eqb path "/" || String.eqb path "" then
    (env, Ok (json (BIndex ENDPOINTS) 200))
  else if String.eqb path "/v1/status" then
    let (env1, snap) := loadSnapshot env in
    (env1, Ok (json (BStatus (List.length (items snap)) (cursor snap)
                             (complete snap) (lastPage snap)
                             (lastUpdated snap) (cronTicks snap)) 200))
  else if String.eqb path "/v1/images" then
    let (env1, its) := list_images req env in
    (env1, Ok (json (BItems its) 200))
  else if String.eqb path "/v1/search" then
    let (env1, its) := search req env in
    (env1, Ok (json (BItems its) 200))
  else if String.eqb path "/admin/build" then
    guarded req env (fun env =>
      let steps := number (clampInt (searchParams_get (searchParams req) "steps")
                                    1 50 (Some BATCH_PAGES_DEFAULT)) in
      match crawlBatch env steps with
      | (env1, Ok res) => (env1, Ok (json (BBatch res) 200))
      | (env1, Throw msg) => (env1, Throw msg)
      end)
  else if String.eqb path "/admin/set-lastpage" then
    guarded req env (fun env =>
      match clampInt (searchParams_get (searchParams req) "value")
                     1 100000 None with
      | None => (env, Ok (json (BError "missing or invalid ?value=") 400))
      | Some n =>
          let (env1, snap) := loadSnapshot env in
          let snap1 := set_lastPage snap (Some n) in
          let snap2 := if num_or (Some (cursor snap1)) 1 >? n
                       then set_complete snap1 true else snap1 in
          (saveSnapshot env1 snap2,
           Ok (json (BLastPage (lastPage snap2) (cursor snap2)
                               (complete snap2)) 200))
      end)
  else if String.eqb path "/admin/restart-crawl" then
    guarded req env (fun env =>
      let (env1, snap) := loadSnapshot env in
      let snap1 := set_complete (set_cursor snap 1) false in
      (saveSnapshot env1 snap1,
       Ok (json (BRestart (cursor snap1) (complete snap1) (lastPage snap1))
                200)))
  else if String.eqb path "/admin/repair" then
    guarded req env (admin_repair repairSnapshot)
  else if String.eqb path "/admin/compact" then
    guarded req env (fun env =>
      let (env1, snap) := loadSnapshot env in
      let snap1 := set_items snap (sortItems (items snap)) in
      (saveSnapshot env1 snap1,
       Ok (json (BTotal (List.length (items snap1))) 200)))
  else if String.eqb path "/admin/reset" then
    guarded req env (fun env =>
      (saveSnapshot env (freshSnapshot env), Ok (json BReset 200)))
  else (env, Ok (json (BError "route not found") 404)).

(** [fetch(request, env, ctx)]: the preflight answer, then the routes under
    [try], an exception becoming a 500. *)
Definition fetch (req : Request) (env : Env) : Env * Response :=
  if String.eqb (method req) "OPTIONS" then (env, json BNone 200)
  else
    match route req env with
    | (env', Ok r) => (env', r)
    | (env', Throw msg) => (env', json (BError msg) 500)
    end.

(** ** Runs of batches *)

(** Between two calls the site and the clock may have moved on; the bucket
    and the trace stay. *)
Definition at_world (env : Env) (up : Z -> FetchOutcome) (now : Z) : Env :=
  {| IMAGES_BUCKET := IMAGES_BUCKET env; ADMIN_KEY := ADMIN_KEY env;
     upstream := up; clock := now; trace := trace env |}.

(** The cursor that [/v1/status] would report. *)
Definition cursor_of (env : Env) : Z := cursor (snd (loadSnapshot env)).

(** One call of a run: its [steps], and the site and clock it meets. *)
Definition Call : Type := Z * (Z -> FetchOutcome) * Z.

Definition run_call (env : Env) (c : Call) : Env :=
  let '(steps, up, now) := c in
  fst (crawlBatch (at_world env up now) steps).

(** The cursors reported after each call of a run of [crawlBatch] calls. *)
Fixpoint cursors_after (env : Env) (calls : list Call) : list Z :=
  match calls with
  | [] => []
  | c :: rest => cursor_of (run_call env c) :: cursors_after (run_call env c) rest
  end.

(** The pages fetched, in order, according to a trace. *)
Fixpoint fetched_pages (t : list Event) : list Z :=
  match t with
  | [] => []
  | EvFetch n :: r => n :: fetched_pages r
  | EvPut _ :: r => fetched_pages r
  end.

(** The snapshots written, in order, according to a trace. *)
Fixpoint puts (t : list Event) : list RawSnapshot :=
  match t with
  | [] => []
  | EvPut b :: r => b :: puts r
  | EvFetch _ :: r => puts r
  end.

(** [k] consecutive page indexes from [p]. *)
Fixpoint pages_from (p : Z) (k : nat) : list Z :=
  match k with
  | O => []
  | S k' => p :: pages_from (p + 1) k'
  end.

(** ** Example worlds *)

Definition named (n : string) : RawItem :=
  {| raw_name := Some n; raw_url := None |}.

Definition catalog (names : list string) : RawSnapshot :=
  {| r_items := Some (map named names); r_seen := None; r_cursor := None;
     r_lastPage := None; r_complete := None; r_lastUpdated := Some 1756234998;
     r_cronTicks := None |}.

Definition quiet_site : Z -> FetchOutcome := fun _ => HttpResponse true [].

Definition world (blob : option RawSnapshot) (up : Z -> FetchOutcome) : Env :=
  {| IMAGES_BUCKET := blob; ADMIN_KEY := Some "secret"; upstream := up;
     clock := 1756300000; trace := [] |}.

Definition admin_post (path : string) : Request :=
  {| method := "POST"; pathname := path; searchParams := [];
     x_admin_key := Some "secret" |}.

Definition search_for (q : string) : Request :=
  {| method := "GET"; pathname := "/v1/search"; searchParams := [("q", q)];
     x_admin_key := None |}.

(** A site whose first page lists an image with a plus sign in its name. *)
Definition plus_site : Z -> FetchOutcome :=
  fun n => if n =? 1
           then HttpResponse true ["/directory/image/a+b"; "/directory/image/node"]
           else HttpResponse true [].

Definition down_site : Z -> FetchOutcome := fun _ => NetworkError "connection lost".

(** A catalogue holding one image whose name has a plus sign. *)
Definition plus_catalog : RawSnapshot := catalog ["a+b"].

(** An empty catalogue in front of [plus_site]. *)
Definition plus_world : Env := world (Some (catalog [])) plus_site.

(** [plus_world] after one batch of one page and an admin restart of the
    crawl. *)
Definition plus_world_restarted : Env :=
  fst (fetch (admin_post "/admin/restart-crawl")
             (fst (crawlBatch plus_world 1))).

(** Two worlds that differ at most in their trace. *)
Definition same_world (a b : Env) : Prop :=
  IMAGES_BUCKET b = IMAGES_BUCKET a /\ ADMIN_KEY b = ADMIN_KEY a /\
  upstream b = upstream a /\ clock b = clock a.





(** The catalogue of the specification's wildcard example. *)
Definition node_world : Env :=
  world (Some (catalog ["node"; "nodejs"; "gonode"])) quiet_site.

(** ** Orders on items *)

(** [x] does not sort after [y] for the comparator of [sortItems]. *)
Definition item_le (x y : Item) : Prop :=
  localeCompare (name x) (name y) <> Gt.








(** ** The survivors of a repair *)

(** The candidate of a stored item, when it passes the grammar and the
    denylist. *)
Definition accepted (it : RawItem) : option string :=
  match candidate_of it with
  | Some c => if SLUG_RE_test c && negb (BAD_SLUGS_has c) then Some c else None
  | None => None
  end.

(** The names that the loop of [loadSnapshot] pushes, in order, when it
    starts with the keys [seen]. *)
Fixpoint survivors (its : list RawItem) (seen : list string) : list string :=
  match its with
  | [] => []
  | it :: rest =>
      match accepted it with
      | Some c =>
          if has_key c seen then survivors rest seen
          else c :: survivors rest (seen ++ [c])
      | None => survivors rest seen
      end
  end.



(** A site whose first page lists an image called [constructor], in front
    of a bucket that holds nothing yet. *)
Definition constructor_world : Env :=
  world None (fun n => if n =? 1
                       then HttpResponse true ["/directory/image/constructor"]
                       else HttpResponse true []).

(** ** Routes *)

Definition ADMIN_PATHS : list string :=
  ["/admin/build"; "/admin/set-lastpage"; "/admin/restart-crawl";
   "/admin/repair"; "/admin/compact"; "/admin/reset"].

Definition request (m path : string) (params : list (string * string))
    (key : option string) : Request :=
  {| method := m; pathname := path; searchParams := params;
     x_admin_key := key |}.

(** ** Well-formed catalogues *)

(** A name that passes the slug grammar and is not on the denylist. *)
Definition valid_slug (s : string) : bool :=
  SLUG_RE_test s && negb (BAD_SLUGS_has s).

(** An item as the worker builds them: a valid name and the url derived
    from it. *)
Definition sound_item (it : Item) : Prop :=
  valid_slug (name it) = true /\ it = mkCard (name it).

(** A list of sound items with no name twice. *)
Definition well_formed (its : list Item) : Prop :=
  NoDup (map name its) /\ Forall sound_item its.

(** What the merge loop of [crawlBatch] relies on: the items are well
    formed and [seen] has an own key for each of their names. *)
Definition indexed (snap : Snapshot) : Prop :=
  well_formed (items snap) /\
  forall n, In n (map name (items snap)) -> In n (own_keys (seen snap)).

(** The counter that [/v1/status] would report. *)
Definition cronTicks_of (env : Env) : Z := cronTicks (snd (loadSnapshot env)).

(** Step into an admin route whose method, path and key check are known. *)
Ltac enter_admin_route Hm Hp Ha :=
  unfold fetch, route, guarded; rewrite Hm, Hp, Ha;
  cbn [String.eqb Ascii.eqb Bool.eqb orb andb negb].

(* ================================================================== *)
(** * Part II. Properties *)
(* ================================================================== *)

(** ** The snapshot store *)

Lemma repair_fields (env : Env) (raw : RawSnapshot) :
  cursor (repair env raw) = num_or (r_cursor raw) 1 /\
  lastPage (repair env raw) = r_lastPage raw /\
  complete (repair env raw) =
    match r_complete raw with Some b => b | None => false end /\
  cronTicks (repair env raw) = num_or (r_cronTicks raw) 0.
Proof.
  unfold repair.
  destruct (fold_left _ _ _) as [minimal sn]; cbn.
  repeat split.
Qed.

Lemma loadSnapshot_some (env : Env) (raw : RawSnapshot) :
  IMAGES_BUCKET env = Some raw -> loadSnapshot env = (env, repair env raw).
Proof. intros H; unfold loadSnapshot; now rewrite H. Qed.

Lemma complete_has_blob (env : Env) :
  complete (snd (loadSnapshot env)) = true ->
  exists raw, IMAGES_BUCKET env = Some raw.
Proof.
  unfold loadSnapshot.
  destruct (IMAGES_BUCKET env) as [raw|]; cbn; [eauto | discriminate].
Qed.

(** ** C1: a finished crawl is left alone *)

(** C1.  When the snapshot that [crawlBatch] loads has [complete = true],
    the call, whatever its [steps], reports zero crawled pages, zero added
    items, [reachedEnd = true] and the loaded cursor, and hands back the
    world as it found it: nothing is fetched and nothing is written, so the
    bucket still holds a completed snapshot for every later call, whatever
    the site and the clock have become. *)
Theorem crawlBatch_complete_noop (env : Env) (steps : Z) :
  complete (snd (loadSnapshot env)) = true ->
  let snap := snd (loadSnapshot env) in
  crawlBatch env steps =
    (env, Ok {| crawledPages := 0; addedItems := 0; reachedEnd := true;
                nextCursor := cursor snap;
                total := List.length (items snap);
                res_lastPage := lastPage snap |}) /\
  (forall up now,
      complete (snd (loadSnapshot
                       (at_world (fst (crawlBatch env steps)) up now))) = true /\
      cursor_of (at_world (fst (crawlBatch env steps)) up now) = cursor snap).
Proof.
  intros Hc snap.
  destruct (complete_has_blob env Hc) as [raw Hraw].
  assert (Hrun : crawlBatch env steps =
    (env, Ok {| crawledPages := 0; addedItems := 0; reachedEnd := true;
                nextCursor := cursor snap;
                total := List.length (items snap);
                res_lastPage := lastPage snap |})).
  { subst snap. unfold crawlBatch.
    rewrite (loadSnapshot_some env Hraw) in *. cbn in Hc |- *.
    now rewrite Hc. }
  split; [exact Hrun|].
  intros up now. rewrite Hrun. cbn [fst].
  subst snap. unfold cursor_of.
  rewrite (loadSnapshot_some env Hraw) in *.
  rewrite (@loadSnapshot_some (at_world env up now) raw) by exact Hraw.
  cbn [snd] in *.
  destruct (repair_fields env raw) as (Hcu & _ & Hco & _).
  destruct (repair_fields (at_world env up now) raw) as (Hcu' & _ & Hco' & _).
  rewrite Hco', Hcu', <- Hco, <- Hcu. auto.
Qed.

Lemma crawlBatch_complete_noop_witness :
  crawlBatch
    (world (Some {| r_items := Some [named "node"]; r_seen := None;
                    r_cursor := Some 279; r_lastPage := Some 278;
                    r_complete := Some true; r_lastUpdated := Some 7;
                    r_cronTicks := Some 3 |}) plus_site) 5 =
  (world (Some {| r_items := Some [named "node"]; r_seen := None;
                  r_cursor := Some 279; r_lastPage := Some 278;
                  r_complete := Some true; r_lastUpdated := Some 7;
                  r_cronTicks := Some 3 |}) plus_site,
   Ok {| crawledPages := 0; addedItems := 0; reachedEnd := true;
         nextCursor := 279; total := 1; res_lastPage := Some 278 |}).
Proof.
  exact (proj1 (@crawlBatch_complete_noop
    (world (Some {| r_items := Some [named "node"]; r_seen := None;
                    r_cursor := Some 279; r_lastPage := Some 278;
                    r_complete := Some true; r_lastUpdated := Some 7;
                    r_cronTicks := Some 3 |}) plus_site) 5 eq_refl)).
Defined.

(** ** C2: repairing a repaired snapshot *)

(** C2.  The repair pass is not a fixed point on a name with a plus sign.
    Repairing the catalogue that holds the one name [a+b] keeps the name
    and derives the url [.../directory/image/a%2Bb]; saving that snapshot
    and repairing it again re-derives the name from that url, where the
    path pattern stops at the percent sign, and the item comes back as
    [a]. *)
Theorem repair_twice_differs :
  let once := repair plus_world plus_catalog in
  let twice := repair plus_world (stringify once) in
  map name (items once) = ["a+b"] /\
  map url (items once) =
    ["https://images.chainguard.dev/directory/image/a%2Bb"] /\
  map name (items twice) = ["a"] /\
  own_keys (seen twice) = ["a"] /\
  twice <> once.
Proof.
  cbv zeta.
  assert (H1 : map name (items (repair plus_world plus_catalog)) = ["a+b"])
    by (vm_compute; reflexivity).
  assert (H2 : map name (items (repair plus_world
                 (stringify (repair plus_world plus_catalog)))) = ["a"])
    by (vm_compute; reflexivity).
  split; [exact H1|]. split; [vm_compute; reflexivity|].
  split; [exact H2|]. split; [vm_compute; reflexivity|].
  intros E. congruence.
Qed.

(** ** C3: the repair route *)

(** C3.  An authorised [POST /admin/repair] is answered with status 500
    and the error [repairSnapshot is not defined]: the route loads the
    snapshot and then calls a function the module does not have.  Nothing
    is sorted or saved by the route; the world is the one [loadSnapshot]
    left. *)
Theorem admin_repair_fails (req : Request) (env : Env) :
  method req = "POST" ->
  pathname req = "/admin/repair" ->
  isAdmin req env = true ->
  fetch req env =
    (fst (loadSnapshot env),
     {| status := 500; body := BError "repairSnapshot is not defined" |}).
Proof.
  intros Hm Hp Ha.
  unfold fetch, route, guarded. rewrite Hm, Hp, Ha. cbn.
  unfold admin_repair, repairSnapshot.
  destruct (loadSnapshot env) as [env1 snap]. reflexivity.
Qed.

Lemma admin_repair_fails_witness :
  fetch (admin_post "/admin/repair") (world (Some (catalog ["node"])) quiet_site) =
    (world (Some (catalog ["node"])) quiet_site,
     {| status := 500; body := BError "repairSnapshot is not defined" |}).
Proof.
  exact (@admin_repair_fails (admin_post "/admin/repair")
           (world (Some (catalog ["node"])) quiet_site)
           eq_refl eq_refl eq_refl).
Defined.

(** ** C4: merging a page twice *)

(** C4.  A second batch over the same page adds an item again when a name
    has a plus sign.  The first batch over [plus_site] adds [a+b] and
    [node].  After a restart of the crawl the snapshot that the next batch
    loads holds [a] in place of [a+b] (the repair pass of C2), so the same
    page yields [a+b] as a new item: [addedItems] is 1, not 0. *)
Theorem second_batch_adds_again :
  (exists res1, snd (crawlBatch plus_world 1) = Ok res1 /\
                crawledPages res1 = 1 /\ addedItems res1 = 2) /\
  map name (items (snd (loadSnapshot plus_world_restarted))) = ["a"; "node"] /\
  upstream plus_world_restarted = upstream plus_world /\
  (exists res2, snd (crawlBatch plus_world_restarted 1) = Ok res2 /\
                crawledPages res2 = 1 /\ addedItems res2 = 1) /\
  fetched_pages (trace (fst (crawlBatch plus_world_restarted 1))) = [1; 1].
Proof.
  split; [|split; [|split; [|split]]].
  - eexists. split; [vm_compute; reflexivity|]. split; reflexivity.
  - vm_compute; reflexivity.
  - vm_compute; reflexivity.
  - eexists. split; [vm_compute; reflexivity|]. split; reflexivity.
  - vm_compute; reflexivity.
Qed.

(** The [seen] object of a fresh snapshot is the literal [{}]: on the very
    first batch over an empty bucket the name [constructor] is found on
    the prototype and the item is not pushed; the next batch over the same
    page, whose [seen] was rebuilt by [loadSnapshot], pushes it. *)
Example first_batch_skips_constructor :
  (exists res, snd (crawlBatch constructor_world 1) = Ok res /\
               addedItems res = 0 /\ total res = 0%nat) /\
  (exists res,
      snd (crawlBatch
             (fst (fetch (admin_post "/admin/restart-crawl")
                         (fst (crawlBatch constructor_world 1)))) 1) = Ok res /\
      addedItems res = 1 /\ total res = 1%nat).
Proof.
  split; eexists; (split; [vm_compute; reflexivity|]); split; reflexivity.
Qed.

(** ** The crawl loop *)

Lemma same_world_refl (a : Env) : same_world a a.
Proof. repeat split. Qed.

Lemma same_world_trans (a b c : Env) :
  same_world a b -> same_world b c -> same_world a c.
Proof.
  unfold same_world. intros (H1 & H2 & H3 & H4) (K1 & K2 & K3 & K4).
  repeat split; congruence.
Qed.

Lemma same_world_log (a : Env) (e : Event) : same_world a (log a e).
Proof. repeat split. Qed.

Lemma fetchDirectoryPage_env (env : Env) (n : Z) :
  fst (fetchDirectoryPage env n) = log env (EvFetch n).
Proof.
  unfold fetchDirectoryPage.
  destruct (upstream env n) as [msg|[|] hrefs]; reflexivity.
Qed.

Lemma merge_page_fields (page_items : list Item) (snap : Snapshot) (added : Z) :
  let out := merge_page snap added page_items in
  cursor (fst out) = cursor snap /\ lastPage (fst out) = lastPage snap /\
  complete (fst out) = complete snap /\ cronTicks (fst out) = cronTicks snap /\
  added <= snd out.
Proof.
  unfold merge_page. revert snap added.
  induction page_items as [|it rest IH]; intros snap added; cbn.
  - repeat split; lia.
  - unfold merge_item at 2.
    destruct (seen_get (seen snap) (name it)).
    + apply IH.
    + match goal with |- context [fold_left merge_item rest (?s, ?a)] =>
        destruct (IH s a) as (H1 & H2 & H3 & H4 & H5) end.
      cbn in *. repeat split; try assumption; lia.
Qed.

(** What the loop does to the world and to its counters: it fetches [k]
    consecutive pages from the current one, touches neither the bucket nor
    the clock, and when it ends without an exception the page index and the
    page count have both grown by [k]. *)
Lemma crawl_loop_post (steps hardStop : Z) (fuel : nat) (st : Loop) :
  exists k : nat,
    (k <= fuel)%nat /\
    same_world (l_env st) (fst (crawl_loop fuel steps hardStop st)) /\
    trace (fst (crawl_loop fuel steps hardStop st)) =
      trace (l_env st) ++ map EvFetch (pages_from (l_page st) k) /\
    (fuel <> O -> l_crawled st < steps -> l_page st <= hardStop ->
     (1 <= k)%nat) /\
    match snd (crawl_loop fuel steps hardStop st) with
    | Ok st' =>
        l_env st' = fst (crawl_loop fuel steps hardStop st) /\
        l_page st' = l_page st + Z.of_nat k /\
        l_crawled st' = l_crawled st + Z.of_nat k /\
        l_added st <= l_added st' /\
        lastPage (l_snap st') = lastPage (l_snap st) /\
        cronTicks (l_snap st') = cronTicks (l_snap st)
    | Throw _ => True
    end.
Proof.
  revert st. induction fuel as [|fuel IH]; intros st.
  - exists O. cbn. rewrite app_nil_r.
    repeat split; try lia; try congruence.
  - cbn [crawl_loop].
    destruct ((l_crawled st <? steps) && (l_page st <=? hardStop)) eqn:Hcond.
    2:{ exists O. cbn. rewrite app_nil_r.
        apply andb_false_iff in Hcond.
        repeat split; try lia. }
    pose proof (fetchDirectoryPage_env (l_env st) (l_page st)) as Henv.
    destruct (fetchDirectoryPage (l_env st) (l_page st)) as [env' fetched].
    cbn in Henv. subst env'.
    destruct fetched as [page_items|msg].
    2:{ exists 1%nat. cbn. repeat split; lia. }
    destruct page_items as [|it rest].
    + destruct (known_and (lastPage (l_snap st)) (fun lp => l_page st >=? lp)).
      * exists 1%nat. cbn. repeat split; lia.
      * match goal with |- context [crawl_loop fuel steps hardStop ?s] =>
          destruct (IH s) as (k & Hk & Hw & Ht & _ & Hres);
          set (out := crawl_loop fuel steps hardStop s) in * end.
        exists (S k). cbn in Hw, Ht.
        split; [lia|]. split.
        { eapply same_world_trans; [apply same_world_log | exact Hw]. }
        split. { rewrite Ht. cbn. now rewrite <- app_assoc. }
        split; [lia|].
        destruct (snd out) as [st'|msg]; [|exact I].
        cbn in Hres. destruct Hres as (E1 & E2 & E3 & E4 & E5 & E6).
        repeat split; try assumption; lia.
    + pose proof (merge_page_fields (it :: rest) (l_snap st) (l_added st))
        as (_ & M2 & _ & M4 & M5).
      destruct (merge_page (l_snap st) (l_added st) (it :: rest))
        as [snap' added'].
      cbn in M2, M4, M5.
      match goal with |- context [crawl_loop fuel steps hardStop ?s] =>
        destruct (IH s) as (k & Hk & Hw & Ht & _ & Hres);
        set (out := crawl_loop fuel steps hardStop s) in * end.
      exists (S k). cbn in Hw, Ht.
      split; [lia|]. split.
      { eapply same_world_trans; [apply same_world_log | exact Hw]. }
      split. { rewrite Ht. cbn. now rewrite <- app_assoc. }
      split; [lia|].
      destruct (snd out) as [st'|msg]; [|exact I].
      cbn in Hres. destruct Hres as (E1 & E2 & E3 & E4 & E5 & E6).
      repeat split; try assumption; try lia; congruence.
Qed.

(** [steps] turns are enough: more fuel changes nothing. *)
Lemma crawl_loop_fuel (steps hardStop : Z) (fuel extra : nat) (st : Loop) :
  steps - l_crawled st <= Z.of_nat fuel ->
  crawl_loop (fuel + extra) steps hardStop st =
  crawl_loop fuel steps hardStop st.
Proof.
  revert st. induction fuel as [|fuel IH]; intros st Hf.
  - cbn [Nat.add crawl_loop]. destruct extra as [|extra]; [reflexivity|].
    cbn [crawl_loop].
    replace (l_crawled st <? steps) with false
      by (symmetry; apply Z.ltb_ge; lia).
    reflexivity.
  - cbn [Nat.add crawl_loop].
    destruct ((l_crawled st <? steps) && (l_page st <=? hardStop));
      [|reflexivity].
    destruct (fetchDirectoryPage (l_env st) (l_page st)) as [env' fetched].
    destruct fetched as [page_items|msg]; [|reflexivity].
    destruct page_items as [|it rest].
    + destruct (known_and _ _); [reflexivity|]. apply IH. cbn. lia.
    + destruct (merge_page _ _ _) as [snap' added']. apply IH. cbn. lia.
Qed.


(** The fuel that [crawlBatch] gives its loop is enough. *)
Lemma crawlBatch_fuel (steps hardStop : Z) (extra : nat) (st : Loop) :
  l_crawled st = 0 ->
  crawl_loop (Z.to_nat steps + extra) steps hardStop st =
  crawl_loop (Z.to_nat steps) steps hardStop st.
Proof. intros H. apply crawl_loop_fuel. lia. Qed.

(** ** The path pattern *)

Lemma all_chars_substring (p : ascii -> bool) (s : string) (k : nat) :
  (k <= run_length p s)%nat -> all_chars p (substring 0 k s) = true.
Proof.
  revert k. induction s as [|c s IH]; intros k Hk; cbn in Hk.
  - destruct k; [reflexivity | lia].
  - destruct k as [|k]; [reflexivity|].
    destruct (p c) eqn:Hp; [|lia].
    cbn. rewrite Hp. apply IH. lia.
Qed.

Lemma backtrack_substring (s : string) (k : nat) (m : string) :
  backtrack s k = Some m -> exists j, (j <= k)%nat /\ m = substring 0 j s.
Proof.
  induction k as [|k IH]; cbn; [discriminate|].
  destruct (boundary s (S k)).
  - intros H. injection H as <-. exists (S k). split; [lia | reflexivity].
  - intros H. destruct (IH H) as (j & Hj & ->). exists j. split; [lia | reflexivity].
Qed.

Lemma match_group_chars (s m : string) :
  match_group s = Some m -> all_chars cap_tail m = true.
Proof.
  unfold match_group. destruct s as [|c r]; [discriminate|].
  destruct (cap_head c) eqn:Hc; [|discriminate].
  intros H. apply backtrack_substring in H. destruct H as (j & Hj & ->).
  apply all_chars_substring. cbn.
  unfold cap_tail at 1. rewrite Hc. cbn. exact Hj.
Qed.

Lemma exec_image_path_chars (s m : string) :
  exec_image_path s = Some m -> all_chars cap_tail m = true.
Proof.
  induction s as [|c s IH]; cbn [exec_image_path].
  - unfold match_here. cbn. discriminate.
  - destruct (match_here (String c s)) as [m'|] eqn:E.
    + intros H. injection H as <-. unfold match_here in E.
      destruct (prefix IMAGE_PATH (String c s)); [|discriminate].
      eapply match_group_chars; eassumption.
    + exact IH.
Qed.

Lemma cap_tail_not_percent (c : ascii) :
  cap_tail c = true -> Ascii.eqb c "%" = false.
Proof.
  intros H. destruct (Ascii.eqb_spec c "%") as [->|]; [|reflexivity].
  vm_compute in H. discriminate H.
Qed.

(** What the path pattern captures has no escape to decode. *)
Lemma decode_capture (s m : string) :
  exec_image_path s = Some m -> decodeURIComponent m = Some m.
Proof.
  intros H. apply exec_image_path_chars in H.
  induction m as [|c m IH]; [reflexivity|].
  cbn in H. apply andb_true_iff in H. destruct H as [Hc Hm].
  cbn [decodeURIComponent]. rewrite (cap_tail_not_percent c Hc), (IH Hm).
  reflexivity.
Qed.

(** ** C5: the cursor only moves forward *)

Lemma num_or_some (v d : Z) : v <> 0 -> num_or (Some v) d = v.
Proof.
  intros H. unfold num_or. destruct (v =? 0) eqn:E; [|reflexivity].
  apply Z.eqb_eq in E. contradiction.
Qed.

Lemma start_page (c : Z) : Z.max 1 (num_or (Some c) 1) = Z.max 1 c.
Proof.
  unfold num_or. destruct (c =? 0) eqn:E; [apply Z.eqb_eq in E|]; lia.
Qed.

Lemma cursor_of_blob (env : Env) (raw : RawSnapshot) :
  IMAGES_BUCKET env = Some raw -> cursor_of env = num_or (r_cursor raw) 1.
Proof.
  intros H. unfold cursor_of. rewrite (loadSnapshot_some env H). cbn.
  apply repair_fields.
Qed.

(** After a load the bucket holds a blob, and the loaded cursor is the one
    that blob gives. *)
Lemma loadSnapshot_post (env : Env) :
  exists raw,
    IMAGES_BUCKET (fst (loadSnapshot env)) = Some raw /\
    cursor (snd (loadSnapshot env)) = num_or (r_cursor raw) 1 /\
    cursor_of (fst (loadSnapshot env)) = cursor_of env.
Proof.
  destruct (IMAGES_BUCKET env) as [raw|] eqn:Hb.
  - rewrite (loadSnapshot_some env Hb). cbn [fst snd].
    exists raw. split; [exact Hb|]. split; [apply repair_fields | reflexivity].
  - assert (Hl : loadSnapshot env =
                 (saveSnapshot env (freshSnapshot env), freshSnapshot env))
      by (unfold loadSnapshot; now rewrite Hb).
    rewrite Hl. cbn [fst snd].
    exists (stringify (freshSnapshot env)).
    split; [reflexivity|]. split; [reflexivity|].
    rewrite (@cursor_of_blob (saveSnapshot env (freshSnapshot env)) _ eq_refl).
    unfold cursor_of. rewrite Hl. reflexivity.
Qed.

Lemma cursor_of_at_world (env : Env) (up : Z -> FetchOutcome) (now : Z) :
  cursor_of (at_world env up now) = cursor_of env.
Proof.
  unfold cursor_of, loadSnapshot. cbn [IMAGES_BUCKET at_world].
  destruct (IMAGES_BUCKET env) as [raw|]; cbn; [|reflexivity].
  destruct (repair_fields (at_world env up now) raw) as (H & _).
  destruct (repair_fields env raw) as (H' & _). congruence.
Qed.

(** One call: the reported cursor does not go down, stays at least 1 if it
    was, and after a batch that ran it is [max(1, cursor)] plus the number
    of pages crawled. *)
Lemma crawlBatch_cursor (env : Env) (steps : Z) :
  cursor_of env <= cursor_of (fst (crawlBatch env steps)) /\
  (1 <= cursor_of env -> 1 <= cursor_of (fst (crawlBatch env steps))) /\
  (forall res,
      complete (snd (loadSnapshot env)) = false ->
      snd (crawlBatch env steps) = Ok res ->
      nextCursor res = Z.max 1 (cursor_of env) + crawledPages res /\
      0 <= crawledPages res /\
      cursor_of (fst (crawlBatch env steps)) = nextCursor res).
Proof.
  destruct (loadSnapshot_post env) as (raw & Hb & Hc & Hsame).
  assert (H0 : cursor_of env = cursor (snd (loadSnapshot env))) by reflexivity.
  unfold crawlBatch.
  destruct (loadSnapshot env) as [env1 snap]. cbn [fst snd] in *.
  destruct (complete snap) eqn:Hcompl.
  - cbn [fst snd]. rewrite Hsame.
    split; [lia|]. split; [tauto|]. intros res Hf. discriminate Hf.
  - rewrite start_page.
    match goal with |- context [crawl_loop ?f steps ?h ?s] =>
      pose proof (crawl_loop_post steps h f s)
        as (k & _ & (Hw & _) & _ & _ & Hres);
      destruct (crawl_loop f steps h s) as [env2 [st|msg]] end;
      cbn [fst snd l_env l_page l_crawled] in *.
    + destruct Hres as (_ & Hp & Hcr & _).
      match goal with |- context [saveSnapshot ?e ?s] =>
        assert (Hcur : cursor_of (saveSnapshot e s) = l_page st)
          by (rewrite (@cursor_of_blob (saveSnapshot e s) (stringify s) eq_refl);
              cbn; apply num_or_some; lia) end.
      rewrite Hcur.
      split; [lia|]. split; [lia|].
      intros res _ Hok. injection Hok as <-. cbn. lia.
    + rewrite (@cursor_of_blob env2 raw) by congruence.
      split; [lia|]. split; [lia|]. intros res _ Hf. discriminate Hf.
Qed.

(** C5.  Along any run of [crawlBatch] calls, whatever the steps of each
    call and whatever the site and the clock do in between, the cursor
    never decreases, and it stays at least 1 once it is.  A call that finds
    the crawl unfinished and ends normally leaves the cursor at
    [max(1, old cursor)] plus the number of pages it crawled. *)
Theorem cursor_monotone (env : Env) (calls : list Call) :
  Sorted Z.le (cursor_of env :: cursors_after env calls) /\
  (1 <= cursor_of env -> Forall (fun c => 1 <= c) (cursors_after env calls)) /\
  (forall steps res,
      complete (snd (loadSnapshot env)) = false ->
      snd (crawlBatch env steps) = Ok res ->
      cursor_of (fst (crawlBatch env steps)) =
        Z.max 1 (cursor_of env) + crawledPages res /\
      0 <= crawledPages res).
Proof.
  split; [|split].
  - revert env. induction calls as [|[[steps up] now] rest IH]; intros env.
    + cbn. repeat constructor.
    + cbn [cursors_after]. constructor; [apply IH|]. constructor.
      unfold run_call.
      rewrite <- (cursor_of_at_world env up now).
      apply crawlBatch_cursor.
  - revert env. induction calls as [|[[steps up] now] rest IH]; intros env H1.
    + constructor.
    + cbn [cursors_after].
      assert (H2 : 1 <= cursor_of (run_call env (steps, up, now))).
      { unfold run_call. apply crawlBatch_cursor.
        now rewrite cursor_of_at_world. }
      constructor; [exact H2 | now apply IH].
  - intros steps res Hc Hok.
    destruct (crawlBatch_cursor env steps) as (_ & _ & H).
    destruct (H res Hc Hok) as (Hn & Hp & He). split; [lia|exact Hp].
Qed.

Lemma cursor_monotone_witness :
  Sorted Z.le
    (cursor_of plus_world ::
     cursors_after plus_world [(2, plus_site, 10); (50, down_site, 20);
                               (3, quiet_site, 30)]) /\
  Forall (fun c => 1 <= c)
    (cursors_after plus_world [(2, plus_site, 10); (50, down_site, 20);
                               (3, quiet_site, 30)]) /\
  cursor_of (fst (crawlBatch plus_world 2)) = 3.
Proof.
  pose proof (@cursor_monotone plus_world
                [(2, plus_site, 10); (50, down_site, 20); (3, quiet_site, 30)])
    as (H1 & H2 & H3).
  split; [exact H1|]. split.
  - apply H2. vm_compute. discriminate.
  - exact (proj1 (H3 2 {| crawledPages := 2; addedItems := 2;
                          reachedEnd := false; nextCursor := 3; total := 2%nat;
                          res_lastPage := None |} eq_refl eq_refl)).
Defined.

(** ** C8: the scheduler's tick *)

Lemma num_or_zero (v : Z) : num_or (Some v) 0 = v.
Proof.
  unfold num_or. destruct (v =? 0) eqn:E; [|reflexivity].
  apply Z.eqb_eq in E. now subst.
Qed.

Lemma fetched_pages_app (a b : list Event) :
  fetched_pages (a ++ b) = fetched_pages a ++ fetched_pages b.
Proof.
  induction a as [|[blob|n] a IH]; cbn; [reflexivity | exact IH | now rewrite IH].
Qed.

Lemma fetched_pages_fetches (l : list Z) : fetched_pages (map EvFetch l) = l.
Proof. induction l as [|n l IH]; cbn; [reflexivity | now rewrite IH]. Qed.

(** The trace of a batch that finds the crawl unfinished: the pages
    [max(1, cursor)], [max(1, cursor) + 1], ... and then, unless a fetch
    threw, one write. *)
Lemma crawlBatch_trace (env : Env) (steps : Z) :
  complete (snd (loadSnapshot env)) = false ->
  exists (k : nat) (tail : list Event),
    (k <= Z.to_nat steps)%nat /\
    (0 < steps ->
     Z.max 1 (cursor_of env) <= hard_stop (snd (loadSnapshot env)) ->
     (1 <= k)%nat) /\
    fetched_pages tail = [] /\
    trace (fst (crawlBatch env steps)) =
      trace (fst (loadSnapshot env)) ++
      map EvFetch (pages_from (Z.max 1 (cursor_of env)) k) ++ tail.
Proof.
  intros Hc. unfold cursor_of, crawlBatch.
  destruct (loadSnapshot env) as [env1 snap]. cbn [fst snd] in *.
  rewrite Hc, start_page.
  match goal with |- context [crawl_loop ?f steps ?h ?s] =>
    pose proof (crawl_loop_post steps h f s)
      as (k & Hk & _ & Ht & Hone & Hres);
    destruct (crawl_loop f steps h s) as [env2 [st|msg]] end;
    cbn [fst snd l_env l_page l_crawled] in *.
  - destruct Hres as (He & _). exists k. eexists [EvPut _].
    split; [exact Hk|]. split; [intros; apply Hone; lia|].
    split; [reflexivity|].
    cbn [saveSnapshot trace]. rewrite He, Ht, <- app_assoc. reflexivity.
  - exists k, []. split; [exact Hk|]. split; [intros; apply Hone; lia|].
    split; [reflexivity|]. now rewrite app_nil_r.
Qed.

Lemma scheduled_env (env : Env) :
  fst (scheduled env) = fst (crawlBatch (scheduled_tick env) BATCH_PAGES_DEFAULT).
Proof.
  unfold scheduled.
  destruct (crawlBatch (scheduled_tick env) BATCH_PAGES_DEFAULT) as [e [r|m]];
    reflexivity.
Qed.

(** C8.  A tick that loads [cronTicks = 1439] writes the loaded snapshot
    with [cronTicks = 0], [cursor = 1] and [complete = false], and the
    crawl batch that follows in the same tick fetches page 1, 2, ... (at
    most five pages, and page 1 for sure when the hard stop allows a page
    at all).  A tick that loads a counter whose successor is below 1440
    writes the loaded snapshot with the counter incremented and nothing
    else changed, and then runs the crawl batch. *)
Theorem scheduled_threshold (env : Env) :
  let env1 := fst (loadSnapshot env) in
  let snap := snd (loadSnapshot env) in
  (cronTicks snap = 1439 ->
   let reset := {| items := items snap; seen := seen snap; cursor := 1;
                   lastPage := lastPage snap; complete := false;
                   lastUpdated := lastUpdated snap; cronTicks := 0 |} in
   scheduled_tick env = saveSnapshot env1 reset /\
   fst (scheduled env) =
     fst (crawlBatch (saveSnapshot env1 reset) BATCH_PAGES_DEFAULT) /\
   exists (k : nat) (tail : list Event),
     (k <= 5)%nat /\ (1 <= hard_stop snap -> (1 <= k)%nat) /\
     fetched_pages tail = [] /\
     trace (fst (scheduled env)) =
       trace env1 ++ EvPut (stringify reset) ::
       map EvFetch (pages_from 1 k) ++ tail) /\
  (cronTicks snap + 1 < 1440 ->
   let bumped := {| items := items snap; seen := seen snap;
                    cursor := cursor snap; lastPage := lastPage snap;
                    complete := complete snap;
                    lastUpdated := lastUpdated snap;
                    cronTicks := cronTicks snap + 1 |} in
   scheduled_tick env = saveSnapshot env1 bumped /\
   trace (scheduled_tick env) = trace env1 ++ [EvPut (stringify bumped)] /\
   fst (scheduled env) =
     fst (crawlBatch (saveSnapshot env1 bumped) BATCH_PAGES_DEFAULT)).
Proof.
  intros env1 snap. split.
  - intros Hticks reset.
    assert (Htick : scheduled_tick env = saveSnapshot env1 reset).
    { subst env1 snap reset. unfold scheduled_tick.
      destruct (loadSnapshot env) as [e s]. cbn [fst snd] in *.
      cbn [set_cronTicks cronTicks]. rewrite Hticks. reflexivity. }
    split; [exact Htick|]. rewrite scheduled_env, Htick.
    split; [reflexivity|].
    set (env2 := saveSnapshot env1 reset).
    assert (Hload : loadSnapshot env2 = (env2, repair env2 (stringify reset)))
      by (apply loadSnapshot_some; reflexivity).
    destruct (repair_fields env2 (stringify reset)) as (Hcu & Hlp & Hco & _).
    cbn in Hcu, Hlp, Hco.
    destruct (@crawlBatch_trace env2 BATCH_PAGES_DEFAULT)
      as (k & tail & Hk & Hone & Htail & Ht).
    { rewrite Hload. exact Hco. }
    assert (Hc1 : cursor_of env2 = 1)
      by (unfold cursor_of; rewrite Hload; exact Hcu).
    rewrite Hload, Hc1 in *. cbn [fst snd] in *.
    exists k, tail. split; [exact Hk|]. split.
    + intros Hhs. apply Hone; [reflexivity|].
      unfold hard_stop in *. rewrite Hlp. exact Hhs.
    + split; [exact Htail|]. rewrite Ht. subst env2. cbn [saveSnapshot trace].
      rewrite <- app_assoc. reflexivity.
  - intros Hticks bumped.
    assert (Htick : scheduled_tick env = saveSnapshot env1 bumped).
    { subst env1 snap bumped. unfold scheduled_tick.
      destruct (loadSnapshot env) as [e s]. cbn [fst snd] in *.
      cbn [set_cronTicks cronTicks]. rewrite num_or_zero.
      replace (cronTicks s + 1 >=? CRON_THRESHOLD) with false
        by (symmetry; unfold CRON_THRESHOLD; lia).
      reflexivity. }
    split; [exact Htick|]. rewrite scheduled_env, Htick.
    split; reflexivity.
Qed.

Lemma scheduled_threshold_witness :
  puts (trace (scheduled_tick
    (world (Some {| r_items := None; r_seen := None; r_cursor := Some 77;
                    r_lastPage := Some 9; r_complete := Some true;
                    r_lastUpdated := Some 7; r_cronTicks := Some 1439 |})
           plus_site))) =
  [{| r_items := Some []; r_seen := Some []; r_cursor := Some 1;
      r_lastPage := Some 9; r_complete := Some false;
      r_lastUpdated := Some 7; r_cronTicks := Some 0 |}] /\
  puts (trace (scheduled_tick
    (world (Some {| r_items := None; r_seen := None; r_cursor := Some 77;
                    r_lastPage := Some 9; r_complete := Some true;
                    r_lastUpdated := Some 7; r_cronTicks := Some 12 |})
           plus_site))) =
  [{| r_items := Some []; r_seen := Some []; r_cursor := Some 77;
      r_lastPage := Some 9; r_complete := Some true;
      r_lastUpdated := Some 7; r_cronTicks := Some 13 |}].
Proof.
  split.
  - rewrite (proj1 (proj1 (@scheduled_threshold
      (world (Some {| r_items := None; r_seen := None; r_cursor := Some 77;
                      r_lastPage := Some 9; r_complete := Some true;
                      r_lastUpdated := Some 7; r_cronTicks := Some 1439 |})
             plus_site)) eq_refl)).
    reflexivity.
  - rewrite (proj1 (proj2 (@scheduled_threshold
      (world (Some {| r_items := None; r_seen := None; r_cursor := Some 77;
                      r_lastPage := Some 9; r_complete := Some true;
                      r_lastUpdated := Some 7; r_cronTicks := Some 12 |})
             plus_site)) eq_refl)).
    reflexivity.
Defined.

(** ** C9: a page that cannot be fetched *)





(** ** String facts *)


Lemma append_assoc (a b c : string) :
  ((a ++ b) ++ c)%string = (a ++ b ++ c)%string.
Proof. induction a as [|x a IH]; cbn; [reflexivity | now rewrite IH]. Qed.





Lemma includes_empty (s : string) : includes s "" = true.
Proof. destruct s; reflexivity. Qed.













(** ** C7: the four wildcard forms *)



(** ** Sorting *)

Section Lex.

Variable key : ascii -> nat.

Lemma lex_compare_refl (a : string) : lex_compare key a a = Eq.
Proof.
  induction a as [|c a IH]; cbn; [reflexivity|].
  now rewrite Nat.compare_refl.
Qed.

Lemma lex_compare_antisym (a b : string) :
  lex_compare key b a = CompOpp (lex_compare key a b).
Proof.
  revert b. induction a as [|c a IH]; intros [|d b]; cbn; try reflexivity.
  rewrite (Nat.compare_antisym (key c) (key d)).
  destruct (Nat.compare (key c) (key d)); cbn; auto.
Qed.

Lemma lex_le_trans (a b c : string) :
  lex_compare key a b <> Gt -> lex_compare key b c <> Gt ->
  lex_compare key a c <> Gt.
Proof.
  revert b c. induction a as [|x a IH]; intros [|y b] [|z c]; cbn;
    try congruence.
  destruct (Nat.compare_spec (key x) (key y)) as [E1|L1|G1];
    destruct (Nat.compare_spec (key y) (key z)) as [E2|L2|G2];
    try congruence; intros H1 H2.
  - rewrite E1, E2, Nat.compare_refl. eapply IH; eassumption.
  - rewrite E1. now rewrite (proj2 (Nat.compare_lt_iff _ _) L2).
  - rewrite <- E2. now rewrite (proj2 (Nat.compare_lt_iff _ _) L1).
  - assert (L : (key x < key z)%nat) by lia.
    now rewrite (proj2 (Nat.compare_lt_iff _ _) L).
Qed.

Lemma lex_le_total (a b : string) :
  lex_compare key a b = Gt -> lex_compare key b a <> Gt.
Proof.
  intros H. rewrite lex_compare_antisym, H. discriminate.
Qed.

End Lex.

Lemma item_le_trans (x y z : Item) : item_le x y -> item_le y z -> item_le x z.
Proof. unfold item_le, localeCompare. apply lex_le_trans. Qed.

Lemma insert_item_Forall (P : Item -> Prop) (x : Item) (l : list Item) :
  P x -> Forall P l -> Forall P (insert_item x l).
Proof.
  intros Hx Hl. induction Hl as [|y l Hy Hl IH]; cbn.
  - repeat constructor. exact Hx.
  - destruct (localeCompare (name x) (name y));
      repeat (constructor; try assumption).
Qed.

Lemma insert_item_sorted (x : Item) (l : list Item) :
  StronglySorted item_le l -> StronglySorted item_le (insert_item x l).
Proof.
  intros Hl. induction Hl as [|y l Hl IH Hy]; cbn.
  - repeat constructor.
  - destruct (localeCompare (name x) (name y)) eqn:E.
    + constructor; [now constructor|].
      assert (Hxy : item_le x y) by (unfold item_le; congruence).
      constructor; [exact Hxy|].
      eapply Forall_impl; [|exact Hy]. intros z. now apply item_le_trans.
    + constructor; [now constructor|].
      assert (Hxy : item_le x y) by (unfold item_le; congruence).
      constructor; [exact Hxy|].
      eapply Forall_impl; [|exact Hy]. intros z. now apply item_le_trans.
    + constructor; [exact IH|].
      apply insert_item_Forall; [|exact Hy].
      unfold item_le, localeCompare. now apply lex_le_total.
Qed.

Lemma sortItems_sorted (l : list Item) : StronglySorted item_le (sortItems l).
Proof.
  induction l as [|x l IH]; cbn; [constructor | now apply insert_item_sorted].
Qed.

Lemma insert_item_perm (x : Item) (l : list Item) :
  Permutation (x :: l) (insert_item x l).
Proof.
  induction l as [|y l IH]; cbn; [reflexivity|].
  destruct (localeCompare (name x) (name y)); try reflexivity.
  rewrite perm_swap. now constructor.
Qed.

Lemma sortItems_perm (l : list Item) : Permutation l (sortItems l).
Proof.
  induction l as [|x l IH]; cbn; [constructor|].
  rewrite <- insert_item_perm. now constructor.
Qed.

(** Sorting a sorted array changes nothing. *)
Lemma sortItems_id (l : list Item) :
  StronglySorted item_le l -> sortItems l = l.
Proof.
  intros Hl. induction Hl as [|x l Hl IH Hx]; [reflexivity|].
  change (sortItems (x :: l)) with (insert_item x (sortItems l)).
  rewrite IH. destruct Hx as [|y l Hxy _]; cbn; [reflexivity|].
  unfold item_le in Hxy.
  destruct (localeCompare (name x) (name y)); congruence.
Qed.








(** The items of a loaded snapshot are sorted. *)
Lemma loadSnapshot_sorted (env : Env) :
  StronglySorted item_le (items (snd (loadSnapshot env))).
Proof.
  unfold loadSnapshot. destruct (IMAGES_BUCKET env) as [raw|]; cbn.
  - unfold repair. destruct (fold_left _ _ _) as [minimal sn]. cbn.
    apply sortItems_sorted.
  - constructor.
Qed.

(** ** Repair and the order of the stored items *)

Lemma has_key_In (k : string) (keys : list string) :
  has_key k keys = true <-> In k keys.
Proof.
  unfold has_key. rewrite existsb_exists. split.
  - intros (x & Hx & E). apply String.eqb_eq in E. now subst.
  - intros H. exists k. split; [exact H | apply String.eqb_refl].
Qed.

Lemma has_key_snoc (k : string) (keys : list string) :
  has_key k (keys ++ [k]) = true.
Proof. apply has_key_In, in_or_app. right. now left. Qed.

Lemma has_key_app (k : string) (a b : list string) :
  has_key k a = true -> has_key k (a ++ b) = true.
Proof. rewrite !has_key_In. intros H. apply in_or_app. now left. Qed.

(** The loop of [loadSnapshot] in closed form. *)
Lemma repair_fold (its : list RawItem) (minimal : list Item)
    (sn : list string) :
  fold_left repair_step its (minimal, sn) =
  (minimal ++ map mkCard (survivors its sn), sn ++ survivors its sn).
Proof.
  revert minimal sn. induction its as [|it rest IH]; intros minimal sn.
  - cbn. now rewrite !app_nil_r.
  - cbn [fold_left survivors]. unfold repair_step at 2, accepted.
    destruct (candidate_of it) as [[|c r]|]; try apply IH.
    destruct (SLUG_RE_test (String c r)); cbn [negb orb andb]; [|apply IH].
    destruct (BAD_SLUGS_has (String c r)); cbn [negb orb andb]; [apply IH|].
    destruct (has_key (String c r) sn); [apply IH|].
    rewrite IH. cbn [map]. now rewrite <- !app_assoc.
Qed.

Lemma repair_items (env : Env) (raw : RawSnapshot) :
  items (repair env raw) =
  sortItems (map mkCard (survivors (stored_items raw) [])).
Proof.
  unfold repair. fold (stored_items raw).
  rewrite repair_fold. reflexivity.
Qed.

Lemma survivors_seen (its : list RawItem) (sn : list string) (c : string) :
  In c (survivors its sn) -> has_key c sn = false.
Proof.
  revert sn. induction its as [|it rest IH]; intros sn; cbn; [tauto|].
  destruct (accepted it) as [a|]; [|apply IH].
  destruct (has_key a sn) eqn:Ha; [apply IH|].
  intros [<-|H]; [exact Ha|].
  specialize (IH _ H). destruct (has_key c sn) eqn:Hc; [|reflexivity].
  now rewrite (has_key_app _ _ [a] Hc) in IH.
Qed.

Lemma survivors_NoDup (its : list RawItem) (sn : list string) :
  NoDup (survivors its sn).
Proof.
  revert sn. induction its as [|it rest IH]; intros sn; cbn; [constructor|].
  destruct (accepted it) as [a|]; [|apply IH].
  destruct (has_key a sn); [apply IH|].
  constructor; [|apply IH].
  intros H. apply survivors_seen in H. now rewrite has_key_snoc in H.
Qed.

Lemma survivors_In (its : list RawItem) (sn : list string) (c : string) :
  In c (survivors its sn) <->
  has_key c sn = false /\ exists it, In it its /\ accepted it = Some c.
Proof.
  split.
  - intros H. split; [eapply survivors_seen; eassumption|].
    revert sn H. induction its as [|it rest IH]; intros sn; cbn; [tauto|].
    destruct (accepted it) as [a|] eqn:Ha.
    + destruct (has_key a sn).
      * intros H. destruct (IH _ H) as (x & Hx & E). eauto.
      * intros [<-|H]; [eauto|]. destruct (IH _ H) as (x & Hx & E). eauto.
    + intros H. destruct (IH _ H) as (x & Hx & E). eauto.
  - intros (Hc & it & Hit & Hacc).
    revert sn Hc. induction its as [|x rest IH]; intros sn Hc; [destruct Hit|].
    cbn. destruct Hit as [->|Hit].
    + rewrite Hacc, Hc. now left.
    + destruct (accepted x) as [a|]; [|now apply IH].
      destruct (has_key a sn) eqn:Ha; [now apply IH|].
      destruct (String.eqb_spec a c) as [->|Hne]; [now left|].
      right. apply IH; [exact Hit|].
      destruct (has_key c (sn ++ [a])) eqn:K; [|reflexivity].
      apply has_key_In, in_app_or in K. destruct K as [K|[K|[]]].
      * apply has_key_In in K. congruence.
      * congruence.
Qed.






Lemma item_le_refl (x : Item) : item_le x x.
Proof. unfold item_le, localeCompare. now rewrite lex_compare_refl. Qed.



(** ** C6: the order of a listing *)







(** ** C10: the lone star *)

Lemma filter_all {A : Type} (f : A -> bool) (l : list A) :
  (forall x, f x = true) -> filter f l = l.
Proof.
  intros H. induction l as [|x l IH]; cbn; [reflexivity|].
  now rewrite H, IH.
Qed.

Lemma matchSlug_star (slug : string) : matchSlug slug "*" = true.
Proof. unfold matchSlug. cbn. apply includes_empty. Qed.

(** C10.  The query [*] matches every slug: it both starts and ends with
    a star, the term between the two ends is empty, and every string
    includes the empty string.  [/v1/search?q=*] therefore answers with the
    requested page of the whole sorted catalogue, and without a [page]
    parameter with its first [size] items. *)
Theorem star_matches_everything :
  (forall slug, matchSlug slug "*" = true) /\
  (forall req env,
      searchParams_get (searchParams req) "q" = Some "*" ->
      let page := number (clampInt (searchParams_get (searchParams req) "page")
                                   1 1000000000 (Some 1)) in
      let size := number (clampInt (searchParams_get (searchParams req) "size")
                                   1 200 (Some 50)) in
      snd (search req env) =
        array_slice (items (snd (loadSnapshot env)))
                    ((page - 1) * size) ((page - 1) * size + size)) /\
  (forall req env,
      searchParams_get (searchParams req) "q" = Some "*" ->
      searchParams_get (searchParams req) "page" = None ->
      let size := number (clampInt (searchParams_get (searchParams req) "size")
                                   1 200 (Some 50)) in
      snd (search req env) =
        firstn (Z.to_nat size) (items (snd (loadSnapshot env)))).
Proof.
  assert (Hpage : forall req env,
      searchParams_get (searchParams req) "q" = Some "*" ->
      let page := number (clampInt (searchParams_get (searchParams req) "page")
                                   1 1000000000 (Some 1)) in
      let size := number (clampInt (searchParams_get (searchParams req) "size")
                                   1 200 (Some 50)) in
      snd (search req env) =
        array_slice (items (snd (loadSnapshot env)))
                    ((page - 1) * size) ((page - 1) * size + size)).
  { intros req env Hq page size. unfold search. rewrite Hq.
    change (trim (toLowerCase "*")) with "*". cbv iota.
    pose proof (loadSnapshot_sorted env) as Hs.
    destruct (loadSnapshot env) as [env1 snap]. cbn [fst snd] in *.
    rewrite filter_all by (intros x; apply matchSlug_star).
    now rewrite (sortItems_id Hs). }
  split; [exact matchSlug_star|]. split; [exact Hpage|].
  intros req env Hq Hp size. rewrite (Hpage req env Hq), Hp.
  change (number (clampInt None 1 1000000000 (Some 1))) with 1.
  unfold array_slice. fold size. cbn [Z.sub Z.mul Z.add Z.opp Z.to_nat skipn].
  now rewrite Z.sub_0_r.
Qed.

Lemma star_matches_everything_witness :
  map name (snd (search (search_for "*") node_world)) =
  ["gonode"; "node"; "nodejs"].
Proof.
  rewrite (proj2 (proj2 star_matches_everything) (search_for "*") node_world
                 eq_refl eq_refl).
  reflexivity.
Defined.

(* ================================================================== *)
(** * Part III. Further properties of the worker *)
(* ================================================================== *)

(** ** Request parameters *)

Lemma clampInt_cases (v : option string) (min max : Z) (fb : option Z) :
  min <= max ->
  clampInt v min max fb = fb \/
  exists n, clampInt v min max fb = Some n /\ min <= n <= max.
Proof.
  intros Hmm. unfold clampInt.
  destruct (parseInt _) as [n|]; [|now left].
  destruct (isFinite n); [|now left].
  right. eexists. split; [reflexivity | lia].
Qed.

(** [clampInt] answers with the fallback or with a number between [min]
    and [max]: whatever text the query carries, a parsed number never
    leaves the range, and a text with no leading integer gives the
    fallback. *)
Theorem clampInt_range (v : option string) (min max : Z) (fb : option Z) :
  min <= max ->
  (forall n, clampInt v min max fb = Some n -> fb = Some n \/ min <= n <= max) /\
  (parseInt (match v with Some s => s | None => "" end) = None ->
   clampInt v min max fb = fb).
Proof.
  intros Hmm. split.
  - intros n Hn. destruct (clampInt_cases v fb Hmm) as [E|(m & E & Hm)].
    + left. congruence.
    + right. rewrite E in Hn. injection Hn as <-. exact Hm.
  - intros Hp. unfold clampInt. now rewrite Hp.
Qed.

Lemma clampInt_range_witness :
  (Some 200 = Some 1000 \/ 1 <= 1000 <= 1000) /\
  clampInt (Some "all") 1 1000 (Some 200) = Some 200.
Proof.
  split.
  - apply (proj1 (@clampInt_range (Some "5000") 1 1000 (Some 200)
                    ltac:(discriminate)) 1000). reflexivity.
  - apply (proj2 (@clampInt_range (Some "all") 1 1000 (Some 200)
                    ltac:(discriminate))). reflexivity.
Defined.

Lemma page_size (v : option string) (max fb : Z) :
  1 <= max -> 1 <= fb <= max ->
  1 <= number (clampInt v 1 max (Some fb)) <= max.
Proof.
  intros Hmax Hfb.
  destruct (@clampInt_cases v 1 max (Some fb) Hmax) as [E|(n & E & Hn)];
    rewrite E; cbn; lia.
Qed.

Lemma array_slice_length {A : Type} (l : list A) (start size : Z) :
  (List.length (array_slice l start (start + size)) <= Z.to_nat size)%nat.
Proof.
  unfold array_slice. replace (start + size - start) with size by lia.
  apply firstn_le_length.
Qed.

(** ** Read routes *)

(** A listing never carries more than 1000 items and a search answer never
    more than 200, whatever [size] the request asks for. *)
Theorem page_length_bounded (req : Request) (env : Env) :
  (List.length (snd (list_images req env)) <= 1000)%nat /\
  (List.length (snd (search req env)) <= 200)%nat.
Proof.
  split.
  - unfold list_images.
    pose proof (@page_size (searchParams_get (searchParams req) "size")
                  1000 200 ltac:(lia) ltac:(lia)) as Hs.
    destruct (loadSnapshot env) as [env1 snap]. cbn [snd].
    etransitivity; [apply array_slice_length|]. lia.
  - unfold search.
    pose proof (@page_size (searchParams_get (searchParams req) "size")
                  200 50 ltac:(lia) ltac:(lia)) as Hs.
    destruct (trim _) as [|c q]; [cbn; lia|].
    destruct (loadSnapshot env) as [env1 snap]. cbn [snd].
    etransitivity; [apply array_slice_length|]. lia.
Qed.

Lemma lower_space (c : ascii) : is_space c = true -> lower_char c = c.
Proof.
  intros H. unfold lower_char.
  destruct (is_upper c || (in_range 192 222 c && negb (code c =? 215)%nat))
    eqn:E; [|reflexivity].
  exfalso. revert H E. unfold is_space, is_upper, in_range.
  generalize (code c). intros n H E.
  rewrite !orb_true_iff, !andb_true_iff, !Nat.leb_le, !Nat.eqb_eq in H.
  rewrite !orb_true_iff, !andb_true_iff, !Nat.leb_le, negb_true_iff,
    Nat.eqb_neq in E.
  lia.
Qed.

Lemma blank_trims_to_empty (s : string) :
  all_chars is_space s = true -> trim (toLowerCase s) = "".
Proof.
  intros H.
  assert (E : trimStart (toLowerCase s) = "").
  { induction s as [|c s IH]; [reflexivity|].
    cbn in H. apply andb_true_iff in H. destruct H as [Hc Hs].
    cbn. rewrite (lower_space c Hc), Hc. now apply IH. }
  unfold trim. rewrite E. reflexivity.
Qed.

(** A search whose [q] is missing, empty or made of white space only is
    answered with no item, and the bucket is neither read nor written: on
    an empty bucket no fresh snapshot is created. *)
Theorem blank_query_untouched (req : Request) (env : Env) :
  match searchParams_get (searchParams req) "q" with
  | Some q => all_chars is_space q = true
  | None => True
  end ->
  search req env = (env, []).
Proof.
  intros H. unfold search.
  destruct (searchParams_get (searchParams req) "q") as [[|c q]|];
    try reflexivity.
  now rewrite (blank_trims_to_empty _ H).
Qed.

Lemma blank_query_untouched_witness :
  search (search_for "   ") (world None quiet_site) = (world None quiet_site, []).
Proof.
  exact (@blank_query_untouched (search_for "   ") (world None quiet_site)
           eq_refl).
Defined.

(** ** Admin routes *)

(** The key check passes exactly when the header and the secret are the
    same non-empty string: an unset or empty [ADMIN_KEY] admits nobody. *)
Theorem isAdmin_iff (req : Request) (env : Env) :
  isAdmin req env = true <->
  exists c k, x_admin_key req = Some (String c k) /\
              ADMIN_KEY env = Some (String c k).
Proof.
  unfold isAdmin, non_empty.
  destruct (x_admin_key req) as [[|c k]|], (ADMIN_KEY env) as [[|c' k']|];
    cbn [andb]; try (split; [discriminate | intros (? & ? & ? & ?); discriminate]).
  rewrite String.eqb_eq. split.
  - intros E. exists c, k. now rewrite E.
  - intros (x & y & E1 & E2). congruence.
Qed.

Lemma route_admin (req : Request) (env : Env) :
  In (pathname req) ADMIN_PATHS ->
  String.eqb (method req) "OPTIONS" = false ->
  (String.eqb (method req) "POST" = false ->
   fetch req env = (env, json (BError "use POST") 405)) /\
  (String.eqb (method req) "POST" = true -> isAdmin req env = false ->
   fetch req env = (env, json (BError "forbidden") 403)).
Proof.
  intros Hin Hopt. unfold fetch, route, guarded. rewrite Hopt.
  cbn in Hin.
  destruct Hin as [<-|[<-|[<-|[<-|[<-|[<-|[]]]]]]];
    cbn [String.eqb Ascii.eqb Bool.eqb orb andb negb];
    (split; [intros Hm; now rewrite Hm | intros Hm Ha; now rewrite Hm, Ha]).
Qed.

(** Every admin route refuses a request that is not a POST with status
    405, and a POST without the right key with status 403; in both cases
    nothing is loaded, fetched or written. *)
Theorem admin_routes_guarded (req : Request) (env : Env) :
  In (pathname req) ADMIN_PATHS ->
  (method req <> "POST" -> method req <> "OPTIONS" ->
   fetch req env = (env, {| status := 405; body := BError "use POST" |})) /\
  (method req = "POST" -> isAdmin req env = false ->
   fetch req env = (env, {| status := 403; body := BError "forbidden" |})).
Proof.
  intros Hin. split.
  - intros Hp Ho. apply String.eqb_neq in Hp, Ho.
    now apply (proj1 (route_admin req env Hin Ho)).
  - intros Hp Ha.
    apply (proj2 (@route_admin req env Hin ltac:(now rewrite Hp))); [|exact Ha].
    now rewrite Hp.
Qed.

Lemma admin_routes_guarded_witness :
  fetch (request "GET" "/admin/reset" [] (Some "secret")) node_world =
    (node_world, {| status := 405; body := BError "use POST" |}) /\
  fetch (request "POST" "/admin/build" [("steps", "50")] (Some "guess"))
        node_world =
    (node_world, {| status := 403; body := BError "forbidden" |}).
Proof.
  split.
  - apply (proj1 (@admin_routes_guarded
                    (request "GET" "/admin/reset" [] (Some "secret")) node_world
                    ltac:(cbn; tauto))); discriminate.
  - apply (proj2 (@admin_routes_guarded
                    (request "POST" "/admin/build" [("steps", "50")]
                             (Some "guess")) node_world
                    ltac:(cbn; tauto))); reflexivity.
Defined.

(** ** What a request can do to the world *)

Lemma loadSnapshot_cases (env : Env) :
  fst (loadSnapshot env) = env \/
  (IMAGES_BUCKET env = None /\
   fst (loadSnapshot env) = saveSnapshot env (freshSnapshot env)).
Proof.
  unfold loadSnapshot. destruct (IMAGES_BUCKET env); cbn; auto.
Qed.

Lemma list_images_env (req : Request) (env : Env) :
  fst (list_images req env) = fst (loadSnapshot env).
Proof. unfold list_images. now destruct (loadSnapshot env). Qed.

Lemma search_env (req : Request) (env : Env) :
  fst (search req env) = env \/ fst (search req env) = fst (loadSnapshot env).
Proof.
  unfold search. destruct (trim _); [now left|].
  right. now destruct (loadSnapshot env).
Qed.

Lemma not_admin_path (path : string) :
  ~ In path ADMIN_PATHS ->
  String.eqb path "/admin/build" = false /\
  String.eqb path "/admin/set-lastpage" = false /\
  String.eqb path "/admin/restart-crawl" = false /\
  String.eqb path "/admin/repair" = false /\
  String.eqb path "/admin/compact" = false /\
  String.eqb path "/admin/reset" = false.
Proof.
  intros H. repeat split; apply String.eqb_neq; intros ->; apply H; cbn; tauto.
Qed.

(** A request outside the admin routes leaves the world as it is, bucket
    and trace: it fetches nothing and writes nothing.  The one exception is
    the first access to an empty bucket, where the fresh snapshot is
    written, and nothing else. *)
Theorem public_requests_change_nothing (req : Request) (env : Env) :
  ~ In (pathname req) ADMIN_PATHS ->
  fst (fetch req env) = env \/
  (IMAGES_BUCKET env = None /\
   fst (fetch req env) = saveSnapshot env (freshSnapshot env)).
Proof.
  intros H. destruct (not_admin_path H) as (E1 & E2 & E3 & E4 & E5 & E6).
  unfold fetch. destruct (String.eqb (method req) "OPTIONS"); [now left|].
  unfold route.
  destruct (String.eqb (pathname req) "/" || String.eqb (pathname req) "");
    [now left|].
  destruct (String.eqb (pathname req) "/v1/status").
  { pose proof (loadSnapshot_cases env) as Hl.
    destruct (loadSnapshot env) as [env1 snap]. exact Hl. }
  destruct (String.eqb (pathname req) "/v1/images").
  { pose proof (list_images_env req env) as Hl.
    pose proof (loadSnapshot_cases env) as Hc.
    destruct (list_images req env) as [env1 its]. cbn [fst] in *.
    now rewrite Hl. }
  destruct (String.eqb (pathname req) "/v1/search").
  { pose proof (search_env req env) as Hl.
    pose proof (loadSnapshot_cases env) as Hc.
    destruct (search req env) as [env1 its]. cbn [fst] in *.
    destruct Hl as [->| ->]; [now left | exact Hc]. }
  rewrite E1, E2, E3, E4, E5, E6. now left.
Qed.

Lemma public_requests_change_nothing_witness :
  fst (fetch (search_for "*node*") node_world) = node_world \/
  (IMAGES_BUCKET node_world = None /\
   fst (fetch (search_for "*node*") node_world) =
     saveSnapshot node_world (freshSnapshot node_world)).
Proof.
  apply public_requests_change_nothing.
  cbn. intros [H|[H|[H|[H|[H|[H|[]]]]]]]; discriminate H.
Defined.

Lemma loadSnapshot_fetched (env : Env) :
  fetched_pages (trace (fst (loadSnapshot env))) = fetched_pages (trace env).
Proof.
  destruct (loadSnapshot_cases env) as [-> | (_ & ->)]; [reflexivity|].
  cbn. rewrite fetched_pages_app. cbn. now rewrite app_nil_r.
Qed.

Lemma saveSnapshot_fetched (env : Env) (snap : Snapshot) :
  fetched_pages (trace (saveSnapshot env snap)) = fetched_pages (trace env).
Proof. cbn. rewrite fetched_pages_app. cbn. now rewrite app_nil_r. Qed.

(** The upstream site is only ever asked for a page by an authorised
    [POST /admin/build]: no other request, and no refused one, fetches. *)
Theorem upstream_only_from_build (req : Request) (env : Env) :
  fetched_pages (trace (fst (fetch req env))) <> fetched_pages (trace env) ->
  pathname req = "/admin/build" /\ method req = "POST" /\
  isAdmin req env = true.
Proof.
  intros H.
  destruct (in_dec string_dec (pathname req) ADMIN_PATHS) as [Hin|Hout].
  2:{ exfalso. apply H.
      destruct (public_requests_change_nothing req env Hout) as [->|(_ & ->)];
        [reflexivity | apply saveSnapshot_fetched]. }
  destruct (String.eqb (method req) "OPTIONS") eqn:Ho.
  { exfalso. apply H. unfold fetch. now rewrite Ho. }
  destruct (String.eqb (method req) "POST") eqn:Hm.
  2:{ exfalso. apply H.
      now rewrite (proj1 (route_admin req env Hin Ho) Hm). }
  destruct (isAdmin req env) eqn:Ha.
  2:{ exfalso. apply H.
      now rewrite (proj2 (route_admin req env Hin Ho) Hm Ha). }
  apply String.eqb_eq in Hm. split; [|now split].
  destruct (String.eqb_spec (pathname req) "/admin/build") as [E|N];
    [exact E|].
  exfalso. apply H. unfold fetch, route, guarded. rewrite Ho.
  apply String.eqb_eq in Hm. rewrite Hm, Ha.
  cbn in Hin.
  destruct Hin as [E|[<-|[<-|[<-|[<-|[<-|[]]]]]]]; [now symmetry in E|..];
    cbn [String.eqb Ascii.eqb Bool.eqb orb andb negb].
  - destruct (clampInt _ _ _ _); [|reflexivity].
    pose proof (loadSnapshot_fetched env) as Hl.
    destruct (loadSnapshot env) as [env1 snap]. cbn [fst] in *.
    now rewrite saveSnapshot_fetched.
  - pose proof (loadSnapshot_fetched env) as Hl.
    destruct (loadSnapshot env) as [env1 snap]. cbn [fst] in *.
    now rewrite saveSnapshot_fetched.
  - unfold admin_repair, repairSnapshot.
    pose proof (loadSnapshot_fetched env) as Hl.
    now destruct (loadSnapshot env) as [env1 snap].
  - pose proof (loadSnapshot_fetched env) as Hl.
    destruct (loadSnapshot env) as [env1 snap]. cbn [fst] in *.
    now rewrite saveSnapshot_fetched.
  - cbn [fst]. apply saveSnapshot_fetched.
Qed.

Lemma upstream_only_from_build_witness :
  pathname (request "POST" "/admin/build" [("steps", "2")] (Some "secret")) =
    "/admin/build" /\
  method (request "POST" "/admin/build" [("steps", "2")] (Some "secret")) =
    "POST" /\
  isAdmin (request "POST" "/admin/build" [("steps", "2")] (Some "secret"))
          plus_world = true.
Proof.
  apply upstream_only_from_build. vm_compute. discriminate.
Defined.

(** ** Well-formed catalogues *)

Lemma extractSlug_valid (u : option string) (s : string) :
  extractSlugFromUrl u = Some s -> valid_slug s = true.
Proof.
  unfold extractSlugFromUrl, valid_slug.
  destruct u as [[|c r]|]; try discriminate.
  destruct (exec_image_path _); [|discriminate].
  destruct (decodeURIComponent _); [|discriminate].
  destruct (SLUG_RE_test _ && negb (BAD_SLUGS_has _)) eqn:E; [|discriminate].
  intros H. injection H as <-. exact E.
Qed.

Lemma survivors_accepted (its : list RawItem) (sn : list string) (c : string) :
  In c (survivors its sn) -> valid_slug c = true.
Proof.
  intros H. apply survivors_In in H. destruct H as (_ & it & _ & Hacc).
  unfold accepted in Hacc. destruct (candidate_of it) as [a|]; [|discriminate].
  fold (valid_slug a) in Hacc.
  destruct (valid_slug a) eqn:E; [|discriminate]. now injection Hacc as <-.
Qed.

Lemma sound_mkCard (c : string) : valid_slug c = true -> sound_item (mkCard c).
Proof. intros H. split; [exact H | reflexivity]. Qed.

Lemma well_formed_perm (l l' : list Item) :
  Permutation l l' -> well_formed l -> well_formed l'.
Proof.
  intros HP [Hn Hs]. split.
  - eapply Permutation_NoDup; [apply Permutation_map; exact HP | exact Hn].
  - eapply Permutation_Forall; eassumption.
Qed.

Lemma well_formed_cards (names : list string) :
  NoDup names -> (forall c, In c names -> valid_slug c = true) ->
  well_formed (map mkCard names).
Proof.
  intros Hn Hv. split.
  - rewrite map_map. cbn. now rewrite map_id.
  - apply Forall_forall. intros it Hit. apply in_map_iff in Hit.
    destruct Hit as (c & <- & Hc). apply sound_mkCard, Hv, Hc.
Qed.

Lemma repair_seen (env : Env) (raw : RawSnapshot) :
  own_keys (seen (repair env raw)) = survivors (stored_items raw) [].
Proof. unfold repair. rewrite repair_fold. reflexivity. Qed.

Lemma names_sortItems (l : list Item) (n : string) :
  In n (map name (sortItems l)) <-> In n (map name l).
Proof.
  split; apply Permutation_in, Permutation_map;
    [apply Permutation_sym|]; apply sortItems_perm.
Qed.

(** Whatever the bucket holds, the snapshot that [loadSnapshot] hands out
    is clean: no two items share a name, every name passes the slug
    grammar and the denylist, every url is the one derived from the name,
    the items are sorted, and the keys of [seen] are exactly the names. *)
Theorem loadSnapshot_well_formed (env : Env) :
  let snap := snd (loadSnapshot env) in
  well_formed (items snap) /\
  StronglySorted item_le (items snap) /\
  (forall n, In n (own_keys (seen snap)) <-> In n (map name (items snap))).
Proof.
  cbv zeta. split; [|split; [apply loadSnapshot_sorted|]].
  - unfold loadSnapshot. destruct (IMAGES_BUCKET env) as [raw|]; cbn [snd].
    + rewrite repair_items.
      eapply well_formed_perm; [apply sortItems_perm|].
      apply well_formed_cards; [apply survivors_NoDup|].
      intros c. apply survivors_accepted.
    + split; constructor.
  - intros n. unfold loadSnapshot.
    destruct (IMAGES_BUCKET env) as [raw|]; cbn [snd]; [|reflexivity].
    rewrite repair_seen, repair_items, names_sortItems, map_map. cbn.
    now rewrite map_id.
Qed.

Lemma loadSnapshot_indexed (env : Env) : indexed (snd (loadSnapshot env)).
Proof.
  destruct (loadSnapshot_well_formed env) as (Hw & _ & Hk).
  split; [exact Hw|]. intros n. apply Hk.
Qed.

(** ** Parsing a page *)

Lemma parseCards_loop_inv (hrefs : list string) (out : list Item)
    (sn : list string) :
  well_formed out ->
  (forall n, In n sn <-> In n (map name out)) ->
  well_formed (parseCards_loop hrefs out sn) /\
  (forall n, In n (map name (parseCards_loop hrefs out sn)) <->
             In n (map name out) \/
             exists h, In h hrefs /\ extractSlugFromHref (Some h) = Some n).
Proof.
  revert out sn. induction hrefs as [|h rest IH]; intros out sn Hw Hs.
  - cbn. split; [exact Hw|]. intros n. split; [auto|].
    intros [H|(h & [] & _)]. exact H.
  - cbn [parseCards_loop].
    destruct (extractSlugFromHref (Some h)) as [slug|] eqn:E.
    + destruct (has_key slug sn) eqn:K.
      * destruct (IH out sn Hw Hs) as [W I]. split; [exact W|].
        intros n. rewrite I. split.
        -- intros [H|(x & Hx & Ex)]; [now left | right; exists x; cbn; auto].
        -- intros [H|(x & [<-|Hx] & Ex)]; [now left | | right; eauto].
           left. apply Hs, has_key_In.
           rewrite E in Ex. injection Ex as <-. exact K.
      * assert (Hnew : ~ In slug (map name out)).
        { intros H. apply Hs, has_key_In in H. congruence. }
        assert (Hw' : well_formed (out ++ [mkCard slug])).
        { destruct Hw as [Hn Hf]. split.
          - rewrite map_app. cbn.
            apply NoDup_app; [exact Hn | repeat constructor; auto |].
            intros x Hx [<-|[]]. now apply Hnew.
          - apply Forall_app. split; [exact Hf|]. constructor; [|constructor].
            apply sound_mkCard. eapply extractSlug_valid. exact E. }
        assert (Hs' : forall n, In n (slug :: sn) <->
                                In n (map name (out ++ [mkCard slug]))).
        { intros n. rewrite map_app, in_app_iff. cbn. rewrite Hs. tauto. }
        destruct (IH _ _ Hw' Hs') as [W I]. split; [exact W|].
        intros n. rewrite I, map_app, in_app_iff. cbn [map name mkCard In].
        split.
        -- intros [[H|[<-|[]]]|(x & Hx & Ex)];
             [now left | right; exists h; auto | right; exists x; auto].
        -- intros [H|(x & [<-|Hx] & Ex)]; [auto | | right; eauto].
           left. right. left. rewrite E in Ex. now injection Ex.
    + destruct (IH out sn Hw Hs) as [W I]. split; [exact W|].
      intros n. rewrite I. split.
      * intros [H|(x & Hx & Ex)]; [now left | right; exists x; cbn; auto].
      * intros [H|(x & [<-|Hx] & Ex)];
          [now left | rewrite E in Ex; discriminate Ex | right; eauto].
Qed.

(** The cards of a page: no name twice, every name a valid slug with its
    derived url, and a name is on the list exactly when one of the page's
    links yields it. *)
Theorem parseCards_well_formed (hrefs : list string) :
  well_formed (parseCards hrefs) /\
  (forall n, In n (map name (parseCards hrefs)) <->
             exists h, In h hrefs /\ extractSlugFromHref (Some h) = Some n).
Proof.
  destruct (@parseCards_loop_inv hrefs [] []) as [W I].
  - split; constructor.
  - intros n. reflexivity.
  - split; [exact W|]. intros n. unfold parseCards. rewrite I. cbn. tauto.
Qed.

(** ** What a batch does to the catalogue *)

Lemma parseCards_sound (hrefs : list string) :
  Forall sound_item (parseCards hrefs).
Proof.
  destruct (@parseCards_loop_inv hrefs [] []) as [[_ W] _];
    [split; constructor | reflexivity | exact W].
Qed.

Lemma fetchDirectoryPage_sound (env : Env) (n : Z) (its : list Item) :
  snd (fetchDirectoryPage env n) = Ok its -> Forall sound_item its.
Proof.
  unfold fetchDirectoryPage.
  destruct (upstream env n) as [msg|[|] hrefs]; cbn; intros H;
    try discriminate H; injection H as <-;
    [apply parseCards_sound | constructor].
Qed.

Lemma seen_get_own (s : Seen) (k : string) :
  In k (own_keys s) -> seen_get s k = true.
Proof.
  intros H. unfold seen_get. apply has_key_In in H. now rewrite H.
Qed.

(** Merging a page keeps the catalogue well formed, loses nothing, and
    counts exactly the items it pushes. *)
Lemma merge_page_indexed (page_items : list Item) (snap : Snapshot)
    (added : Z) :
  indexed snap -> Forall sound_item page_items ->
  indexed (fst (merge_page snap added page_items)) /\
  incl (items snap) (items (fst (merge_page snap added page_items))) /\
  Z.of_nat (List.length (items (fst (merge_page snap added page_items)))) -
    Z.of_nat (List.length (items snap)) =
    snd (merge_page snap added page_items) - added.
Proof.
  unfold merge_page. revert snap added.
  induction page_items as [|it rest IH]; intros snap added Hi Hp.
  - cbn. split; [exact Hi|]. split; [apply incl_refl | lia].
  - inversion Hp as [|? ? Hit Hrest]; subst.
    cbn [fold_left].
    assert (Hm : merge_item (snap, added) it =
                 if seen_get (seen snap) (name it) then (snap, added)
                 else ({| items := items snap ++ [it];
                          seen := seen_set (seen snap) (name it);
                          cursor := cursor snap; lastPage := lastPage snap;
                          complete := complete snap;
                          lastUpdated := lastUpdated snap;
                          cronTicks := cronTicks snap |}, added + 1))
      by reflexivity.
    rewrite Hm. clear Hm.
    destruct (seen_get (seen snap) (name it)) eqn:G.
    + now apply IH.
    + match goal with |- context [fold_left merge_item rest (?s, ?a)] =>
        destruct (IH s a) as (I1 & I2 & I3); [|exact Hrest|] end.
      * destruct Hi as [[Hn Hf] Hk]. split; [split|]; cbn [items seen seen_set own_keys].
        -- rewrite map_app. cbn.
           apply NoDup_app; [exact Hn | repeat constructor; auto |].
           intros x Hx [<-|[]]. apply Hk, seen_get_own in Hx. congruence.
        -- apply Forall_app. split; [exact Hf|].
           constructor; [exact Hit | constructor].
        -- intros n. rewrite map_app, !in_app_iff. cbn.
           intros [H|H]; [left; now apply Hk | now right].
      * split; [exact I1|]. split.
        -- intros x Hx. apply I2. cbn. apply in_or_app. now left.
        -- cbn [items] in I3. rewrite length_app in I3. cbn in I3. lia.
Qed.

Lemma indexed_set_complete (snap : Snapshot) (b : bool) :
  indexed snap -> indexed (set_complete snap b).
Proof. intros H. exact H. Qed.

Lemma crawl_loop_indexed (steps hardStop : Z) (fuel : nat) (st st' : Loop) :
  indexed (l_snap st) ->
  snd (crawl_loop fuel steps hardStop st) = Ok st' ->
  indexed (l_snap st') /\
  incl (items (l_snap st)) (items (l_snap st')) /\
  Z.of_nat (List.length (items (l_snap st'))) -
    Z.of_nat (List.length (items (l_snap st))) = l_added st' - l_added st.
Proof.
  revert st. induction fuel as [|fuel IH]; intros st Hi.
  - cbn. intros H. injection H as <-.
    split; [exact Hi|]. split; [apply incl_refl | lia].
  - cbn [crawl_loop].
    destruct ((l_crawled st <? steps) && (l_page st <=? hardStop)).
    2:{ cbn. intros H. injection H as <-.
        split; [exact Hi|]. split; [apply incl_refl | lia]. }
    pose proof (@fetchDirectoryPage_sound (l_env st) (l_page st)) as Hs.
    destruct (fetchDirectoryPage (l_env st) (l_page st)) as [env' fetched].
    cbn [snd] in Hs.
    destruct fetched as [page_items|msg]; [|discriminate].
    specialize (Hs page_items eq_refl).
    destruct page_items as [|it rest].
    + destruct (known_and _ _).
      * cbn. intros H. injection H as <-. cbn.
        split; [exact Hi|]. split; [apply incl_refl | lia].
      * intros H. apply IH in H; [|exact Hi].
        destruct H as (I1 & I2 & I3). cbn in I2, I3. auto.
    + pose proof (@merge_page_indexed (it :: rest) (l_snap st) (l_added st)
                    Hi Hs) as (M1 & M2 & M3).
      destruct (merge_page (l_snap st) (l_added st) (it :: rest))
        as [snap' added'].
      cbn [fst snd] in M1, M2, M3.
      intros H. apply IH in H; [|exact M1].
      destruct H as (I1 & I2 & I3).
      cbn in I2, I3. split; [exact I1|]. split.
      * intros x Hx. now apply I2, M2.
      * lia.
Qed.

(** A batch that ends normally never loses an item and never stores a
    name twice: the total it reports is the number of items it loaded plus
    the number it added, and, when it ran, the snapshot it saved is well
    formed, sorted, and holds every item that was loaded. *)
Theorem crawlBatch_keeps_catalog (env : Env) (steps : Z) (res : BatchResult) :
  snd (crawlBatch env steps) = Ok res ->
  0 <= addedItems res /\
  Z.of_nat (total res) =
    Z.of_nat (List.length (items (snd (loadSnapshot env)))) + addedItems res /\
  (complete (snd (loadSnapshot env)) = false ->
   exists saved,
     IMAGES_BUCKET (fst (crawlBatch env steps)) = Some (stringify saved) /\
     well_formed (items saved) /\
     StronglySorted item_le (items saved) /\
     incl (items (snd (loadSnapshot env))) (items saved) /\
     total res = List.length (items saved)).
Proof.
  pose proof (loadSnapshot_indexed env) as Hi.
  unfold crawlBatch.
  destruct (loadSnapshot env) as [env1 snap]. cbn [fst snd] in *.
  destruct (complete snap).
  - cbn. intros H. injection H as <-. cbn.
    split; [lia|]. split; [lia | discriminate].
  - match goal with |- context [crawl_loop ?f steps ?h ?s] =>
      pose proof (@crawl_loop_indexed steps h f s) as Hl;
      pose proof (crawl_loop_post steps h f s) as (k & _ & _ & _ & _ & Hpost);
      destruct (crawl_loop f steps h s) as [env2 [st|msg]] end;
      cbn [fst snd] in *; [|discriminate].
    destruct (Hl st Hi eq_refl) as (I1 & I2 & I3). cbn in I2, I3.
    destruct Hpost as (_ & _ & _ & Hadd & _). cbn in Hadd.
    intros H. injection H as <-.
    cbn [addedItems total items set_lastUpdated set_items set_cursor].
    assert (Hitems : forall s : Snapshot,
              items s = items (l_snap st) ->
              List.length (sortItems (items s)) = List.length (items (l_snap st))).
    { intros s ->. symmetry. apply Permutation_length, sortItems_perm. }
    assert (Hsame : items (if known_and (lastPage (l_snap st))
                                (fun lp => l_page st >? lp)
                           then set_complete (l_snap st) true
                           else l_snap st) = items (l_snap st))
      by (destruct (known_and _ _); reflexivity).
    rewrite (Hitems _ Hsame).
    split; [lia|]. split; [lia|]. intros _.
    eexists. split; [reflexivity|].
    cbn [items set_lastUpdated set_items set_cursor]. rewrite Hsame.
    split; [|split; [apply sortItems_sorted|split]].
    + eapply well_formed_perm; [apply sortItems_perm | apply I1].
    + intros x Hx. eapply Permutation_in; [apply sortItems_perm|]. now apply I2.
    + apply Permutation_length, sortItems_perm.
Qed.

Lemma crawlBatch_keeps_catalog_witness :
  0 <= 2 /\ Z.of_nat 2 = Z.of_nat 0 + 2 /\
  (complete (snd (loadSnapshot plus_world)) = false ->
   exists saved,
     IMAGES_BUCKET (fst (crawlBatch plus_world 1)) = Some (stringify saved) /\
     well_formed (items saved) /\ StronglySorted item_le (items saved) /\
     incl (items (snd (loadSnapshot plus_world))) (items saved) /\
     2%nat = List.length (items saved)).
Proof.
  exact (@crawlBatch_keeps_catalog plus_world 1
           {| crawledPages := 1; addedItems := 2; reachedEnd := false;
              nextCursor := 2; total := 2; res_lastPage := None |} eq_refl).
Defined.

(** ** How far a batch can go *)

(** The pages the loop asks for lie between the current page index and
    the hard stop, and there are no more of them than [steps] allows,
    whether the loop ends normally or on an exception. *)
Lemma crawl_loop_fetches (steps hardStop : Z) (fuel : nat) (st : Loop) :
  exists ps,
    trace (fst (crawl_loop fuel steps hardStop st)) =
      trace (l_env st) ++ map EvFetch ps /\
    Forall (fun p => l_page st <= p <= hardStop) ps /\
    Z.of_nat (List.length ps) <= Z.max 0 (steps - l_crawled st).
Proof.
  revert st. induction fuel as [|fuel IH]; intros st.
  - exists []. cbn. rewrite app_nil_r. repeat split; [constructor | lia].
  - cbn [crawl_loop].
    destruct ((l_crawled st <? steps) && (l_page st <=? hardStop)) eqn:Hc.
    2:{ exists []. cbn. rewrite app_nil_r. repeat split; [constructor | lia]. }
    apply andb_true_iff in Hc. destruct Hc as [Hc1 Hc2].
    apply Z.ltb_lt in Hc1. apply Z.leb_le in Hc2.
    pose proof (fetchDirectoryPage_env (l_env st) (l_page st)) as Henv.
    destruct (fetchDirectoryPage (l_env st) (l_page st)) as [env' fetched].
    cbn in Henv. subst env'.
    assert (Hone : exists ps,
              trace (log (l_env st) (EvFetch (l_page st))) =
                trace (l_env st) ++ map EvFetch ps /\
              Forall (fun p => l_page st <= p <= hardStop) ps /\
              Z.of_nat (List.length ps) <= Z.max 0 (steps - l_crawled st)).
    { exists [l_page st]. cbn. repeat split; [|lia].
      constructor; [lia | constructor]. }
    assert (Hnext : forall s,
              l_env s = log (l_env st) (EvFetch (l_page st)) ->
              l_page s = l_page st + 1 -> l_crawled s = l_crawled st + 1 ->
              exists ps,
                trace (fst (crawl_loop fuel steps hardStop s)) =
                  trace (l_env st) ++ map EvFetch ps /\
                Forall (fun p => l_page st <= p <= hardStop) ps /\
                Z.of_nat (List.length ps) <= Z.max 0 (steps - l_crawled st)).
    { intros s He Hp Hcr. destruct (IH s) as (ps & Ht & Hf & Hl).
      exists (l_page st :: ps). rewrite Ht, He. cbn.
      rewrite <- app_assoc. split; [reflexivity|]. split.
      - constructor; [lia|]. eapply Forall_impl; [|exact Hf].
        cbn. intros p Hp'. lia.
      - lia. }
    destruct fetched as [page_items|msg]; [|exact Hone].
    destruct page_items as [|it rest].
    + destruct (known_and _ _); [exact Hone | now apply Hnext].
    + destruct (merge_page _ _ _) as [snap' added']. now apply Hnext.
Qed.

Lemma hard_stop_bound (snap : Snapshot) :
  hard_stop snap <= MAX_PAGES_CAP /\
  forall lp, lastPage snap = Some lp -> lp <> 0 -> hard_stop snap <= lp.
Proof.
  unfold hard_stop. split; [lia|].
  intros lp -> Hlp. rewrite (num_or_some _ Hlp). lia.
Qed.

(** A batch asks the site for at most [steps] pages, all of them from
    [max(1, cursor)] on, none above page 5000, and none above [lastPage]
    when it is known. *)
Theorem crawlBatch_bounded (env : Env) (steps : Z) :
  exists ps,
    fetched_pages (trace (fst (crawlBatch env steps))) =
      fetched_pages (trace env) ++ ps /\
    Z.of_nat (List.length ps) <= Z.max 0 steps /\
    Forall (fun p => Z.max 1 (cursor_of env) <= p <= 5000) ps /\
    (forall lp, lastPage (snd (loadSnapshot env)) = Some lp -> lp <> 0 ->
                Forall (fun p => p <= lp) ps).
Proof.
  pose proof (loadSnapshot_fetched env) as Hload.
  unfold cursor_of, crawlBatch.
  destruct (loadSnapshot env) as [env1 snap]. cbn [fst snd] in *.
  destruct (hard_stop_bound snap) as [Hcap Hlp].
  destruct (complete snap).
  - exists []. cbn [fst]. rewrite app_nil_r.
    split; [exact Hload|]. split; [cbn; lia|]. split; [constructor|].
    intros; constructor.
  - rewrite start_page.
    match goal with |- context [crawl_loop ?f steps ?h ?s] =>
      destruct (crawl_loop_fetches steps h f s) as (ps & Ht & Hf & Hl);
      pose proof (crawl_loop_post steps h f s) as (k & _ & _ & _ & _ & Hres);
      destruct (crawl_loop f steps h s) as [env2 [st|msg]] end;
      cbn [fst snd l_env l_page l_crawled] in *; exists ps.
    + destruct Hres as (He & _). rewrite saveSnapshot_fetched, He, Ht.
      rewrite fetched_pages_app, fetched_pages_fetches, Hload.
      split; [reflexivity|]. split; [lia|]. split.
      * eapply Forall_impl; [|exact Hf]. cbn. unfold MAX_PAGES_CAP in *.
        intros p Hp. lia.
      * intros lp E N. specialize (Hlp lp E N).
        eapply Forall_impl; [|exact Hf]. cbn. intros p Hp. lia.
    + rewrite Ht, fetched_pages_app, fetched_pages_fetches, Hload.
      split; [reflexivity|]. split; [lia|]. split.
      * eapply Forall_impl; [|exact Hf]. cbn. unfold MAX_PAGES_CAP in *.
        intros p Hp. lia.
      * intros lp E N. specialize (Hlp lp E N).
        eapply Forall_impl; [|exact Hf]. cbn. intros p Hp. lia.
Qed.

(** ** When a batch declares the crawl complete *)

Lemma known_and_iff (x : option Z) (p : Z -> bool) :
  known_and x p = true <-> exists lp, x = Some lp /\ lp <> 0 /\ p lp = true.
Proof.
  unfold known_and. destruct x as [v|].
  - rewrite andb_true_iff, negb_true_iff, Z.eqb_neq. split.
    + intros [H1 H2]. now exists v.
    + intros (lp & E & H1 & H2). injection E as <-. now split.
  - split; [discriminate | intros (lp & E & _); discriminate E].
Qed.

Lemma known_and_next (x : option Z) (page : Z) :
  known_and x (fun lp => page >=? lp) = true ->
  known_and x (fun lp => page + 1 >? lp) = true.
Proof.
  rewrite !known_and_iff. intros (lp & E & N & H).
  exists lp. split; [exact E|]. split; [exact N | lia].
Qed.

Lemma crawl_loop_complete (steps hardStop : Z) (fuel : nat) (st st' : Loop) :
  snd (crawl_loop fuel steps hardStop st) = Ok st' ->
  complete (l_snap st') = true ->
  complete (l_snap st) = true \/
  known_and (lastPage (l_snap st)) (fun lp => l_page st' >? lp) = true.
Proof.
  revert st. induction fuel as [|fuel IH]; intros st.
  - cbn. intros H. injection H as <-. auto.
  - cbn [crawl_loop].
    destruct ((l_crawled st <? steps) && (l_page st <=? hardStop)).
    2:{ cbn. intros H. injection H as <-. auto. }
    destruct (fetchDirectoryPage (l_env st) (l_page st)) as [env' fetched].
    destruct fetched as [page_items|msg]; [|discriminate].
    destruct page_items as [|it rest].
    + destruct (known_and _ _) eqn:K.
      * cbn. intros H. injection H as <-. cbn. intros _. right.
        now apply known_and_next.
      * intros H Hc. apply IH in H; [|exact Hc]. exact H.
    + pose proof (merge_page_fields (it :: rest) (l_snap st) (l_added st))
        as (_ & M2 & M3 & _).
      destruct (merge_page (l_snap st) (l_added st) (it :: rest))
        as [snap' added'].
      cbn in M2, M3.
      intros H Hc. apply IH in H; [|exact Hc]. cbn in H.
      now rewrite M2, M3 in H.
Qed.

(** A batch that finds the crawl unfinished reports [reachedEnd] exactly
    when [lastPage] is known and the cursor it leaves is beyond it: with
    [lastPage] unknown no batch ever completes the crawl, however many
    empty pages it meets. *)
Theorem reachedEnd_iff (env : Env) (steps : Z) (res : BatchResult) :
  complete (snd (loadSnapshot env)) = false ->
  snd (crawlBatch env steps) = Ok res ->
  res_lastPage res = lastPage (snd (loadSnapshot env)) /\
  (reachedEnd res = true <->
   exists lp, lastPage (snd (loadSnapshot env)) = Some lp /\ lp <> 0 /\
              nextCursor res > lp).
Proof.
  unfold crawlBatch.
  destruct (loadSnapshot env) as [env1 snap]. cbn [fst snd].
  intros Hc. rewrite Hc.
  match goal with |- context [crawl_loop ?f steps ?h ?s] =>
    pose proof (@crawl_loop_complete steps h f s) as Hl;
    pose proof (crawl_loop_post steps h f s) as (k & _ & _ & _ & _ & Hres);
    destruct (crawl_loop f steps h s) as [env2 [st|msg]] end;
    cbn [fst snd l_snap] in *; [|discriminate].
  destruct Hres as (_ & _ & _ & _ & Hlp & _).
  intros H. injection H as <-.
  cbn [res_lastPage reachedEnd nextCursor lastPage complete cursor
       set_lastUpdated set_items set_cursor].
  specialize (Hl st eq_refl). rewrite Hc in Hl.
  assert (E : known_and (lastPage snap) (fun lp => l_page st >? lp) = true <->
              exists lp, lastPage snap = Some lp /\ lp <> 0 /\ l_page st > lp).
  { rewrite known_and_iff. split; intros (lp & E1 & E2 & E3); exists lp;
      (split; [exact E1|]); (split; [exact E2 | lia]). }
  rewrite Hlp.
  destruct (known_and (lastPage snap) (fun lp => l_page st >? lp)) eqn:K;
    cbn [lastPage complete set_complete].
  - split; [exact Hlp|]. split; [intros _; now apply E | reflexivity].
  - split; [exact Hlp|]. rewrite <- E. split; [|discriminate].
    intros Hco. destruct (Hl Hco) as [F|F]; discriminate F.
Qed.

Lemma reachedEnd_iff_witness :
  res_lastPage {| crawledPages := 2; addedItems := 2; reachedEnd := false;
                  nextCursor := 3; total := 2; res_lastPage := None |} =
    lastPage (snd (loadSnapshot plus_world)) /\
  (reachedEnd {| crawledPages := 2; addedItems := 2; reachedEnd := false;
                 nextCursor := 3; total := 2; res_lastPage := None |} = true <->
   exists lp, lastPage (snd (loadSnapshot plus_world)) = Some lp /\ lp <> 0 /\
              nextCursor {| crawledPages := 2; addedItems := 2;
                            reachedEnd := false; nextCursor := 3; total := 2;
                            res_lastPage := None |} > lp).
Proof.
  exact (@reachedEnd_iff plus_world 2 _ eq_refl eq_refl).
Defined.

(** ** Saving and loading again *)

Lemma load_saved (env : Env) (snap : Snapshot) :
  let back := snd (loadSnapshot (saveSnapshot env snap)) in
  cursor back = num_or (Some (cursor snap)) 1 /\
  lastPage back = lastPage snap /\
  complete back = complete snap /\
  cronTicks back = cronTicks snap.
Proof.
  cbv zeta.
  rewrite (@loadSnapshot_some (saveSnapshot env snap) (stringify snap) eq_refl).
  cbn [snd].
  destruct (repair_fields (saveSnapshot env snap) (stringify snap))
    as (H1 & H2 & H3 & H4).
  rewrite H1, H2, H3, H4.
  cbn [stringify r_cursor r_lastPage r_complete r_cronTicks].
  now rewrite num_or_zero.
Qed.

Lemma loaded_scalars (env : Env) :
  exists raw,
    IMAGES_BUCKET (fst (loadSnapshot env)) = Some raw /\
    forall e,
      cursor (repair e raw) = cursor (snd (loadSnapshot env)) /\
      lastPage (repair e raw) = lastPage (snd (loadSnapshot env)) /\
      complete (repair e raw) = complete (snd (loadSnapshot env)) /\
      cronTicks (repair e raw) = cronTicks (snd (loadSnapshot env)).
Proof.
  unfold loadSnapshot. destruct (IMAGES_BUCKET env) as [raw|] eqn:Hb.
  - exists raw. cbn [fst snd]. split; [exact Hb|]. intros e.
    destruct (repair_fields e raw) as (H1 & H2 & H3 & H4).
    destruct (repair_fields env raw) as (K1 & K2 & K3 & K4).
    rewrite H1, H2, H3, H4, K1, K2, K3, K4. auto.
  - exists (stringify (freshSnapshot env)). cbn [fst snd].
    split; [reflexivity|]. intros e.
    destruct (repair_fields e (stringify (freshSnapshot env)))
      as (H1 & H2 & H3 & H4).
    rewrite H1, H2, H3, H4. cbn. auto.
Qed.

Lemma cursor_never_zero (env : Env) : cursor_of env <> 0.
Proof.
  unfold cursor_of, loadSnapshot.
  destruct (IMAGES_BUCKET env) as [raw|]; cbn [snd]; [|discriminate].
  destruct (repair_fields env raw) as (H & _). rewrite H.
  unfold num_or. destruct (r_cursor raw) as [v|]; [|discriminate].
  destruct (v =? 0) eqn:E; [discriminate | now apply Z.eqb_neq].
Qed.

(** A batch on a completed crawl: the world is handed back untouched. *)
Lemma crawlBatch_when_complete (env : Env) (steps : Z) :
  complete (snd (loadSnapshot env)) = true ->
  fst (crawlBatch env steps) = env /\
  exists res, snd (crawlBatch env steps) = Ok res /\
              crawledPages res = 0 /\ addedItems res = 0 /\
              reachedEnd res = true.
Proof.
  intros Hc. destruct (complete_has_blob env Hc) as [raw Hraw].
  unfold crawlBatch. rewrite (loadSnapshot_some env Hraw) in *.
  cbn [snd] in Hc. rewrite Hc. cbn. split; [reflexivity|].
  eexists. repeat split.
Qed.

(** A batch leaves the tick counter alone. *)
Lemma crawlBatch_cronTicks (env : Env) (steps : Z) :
  cronTicks_of (fst (crawlBatch env steps)) = cronTicks_of env.
Proof.
  destruct (loaded_scalars env) as (raw & Hb & Hs).
  unfold cronTicks_of at 2. unfold crawlBatch.
  destruct (loadSnapshot env) as [env1 snap]. cbn [fst snd] in *.
  assert (Hsame : forall e, IMAGES_BUCKET e = Some raw ->
                            cronTicks_of e = cronTicks snap).
  { intros e He. unfold cronTicks_of. rewrite (loadSnapshot_some e He).
    apply Hs. }
  destruct (complete snap); [now apply Hsame|].
  match goal with |- context [crawl_loop ?f steps ?h ?s] =>
    pose proof (crawl_loop_post steps h f s)
      as (k & _ & (Hw & _) & _ & _ & Hres);
    destruct (crawl_loop f steps h s) as [env2 [st|msg]] end;
    cbn [fst snd l_env l_snap] in *.
  - destruct Hres as (_ & _ & _ & _ & _ & Ht).
    unfold cronTicks_of.
    match goal with |- context [saveSnapshot ?e ?s] =>
      destruct (load_saved e s) as (_ & _ & _ & H4) end.
    rewrite H4. cbn [cronTicks set_lastUpdated set_items set_cursor].
    destruct (known_and _ _); exact Ht.
  - apply Hsame. congruence.
Qed.

(** ** The scheduler's counter *)

(** The tick counter counts modulo 1440: from a value between 0 and 1439
    one invocation of [scheduled], crawl batch included, leaves the next
    value, and 1439 is followed by 0. *)
Theorem scheduled_counts (env : Env) :
  0 <= cronTicks_of env < 1440 ->
  cronTicks_of (fst (scheduled env)) = (cronTicks_of env + 1) mod 1440.
Proof.
  intros Ht. rewrite scheduled_env, crawlBatch_cronTicks.
  unfold cronTicks_of in *. unfold scheduled_tick.
  destruct (loadSnapshot env) as [env1 snap]. cbn [fst snd] in *.
  cbn [cronTicks set_cronTicks]. rewrite num_or_zero.
  unfold CRON_THRESHOLD.
  destruct (cronTicks snap + 1 >=? 1440) eqn:E;
    match goal with |- context [saveSnapshot ?e ?s] =>
      destruct (load_saved e s) as (_ & _ & _ & H4) end;
    rewrite H4; cbn [cronTicks set_cronTicks set_cursor set_complete].
  - replace (cronTicks snap) with 1439 by lia. reflexivity.
  - symmetry. apply Z.mod_small. lia.
Qed.

Lemma scheduled_counts_witness :
  cronTicks_of (fst (scheduled node_world)) = (0 + 1) mod 1440.
Proof.
  apply (@scheduled_counts node_world).
  vm_compute. split; [discriminate | reflexivity].
Defined.

(** Once the crawl is complete the scheduler's ticks stay off the site:
    below the threshold a tick only writes the incremented counter, no page
    is fetched, and the snapshot is still complete with the same cursor
    afterwards. *)
Theorem completed_crawl_idles (env : Env) :
  complete (snd (loadSnapshot env)) = true ->
  cronTicks_of env + 1 < 1440 ->
  fetched_pages (trace (fst (scheduled env))) = fetched_pages (trace env) /\
  complete (snd (loadSnapshot (fst (scheduled env)))) = true /\
  cursor_of (fst (scheduled env)) = cursor_of env.
Proof.
  intros Hc Ht. rewrite scheduled_env.
  pose proof (loadSnapshot_fetched env) as Hf.
  pose proof (cursor_never_zero env) as Hz.
  unfold cursor_of, cronTicks_of in *.
  assert (Htick : exists snap', scheduled_tick env =
                    saveSnapshot (fst (loadSnapshot env)) snap' /\
                    complete snap' = true /\
                    cursor snap' = cursor (snd (loadSnapshot env))).
  { unfold scheduled_tick.
    destruct (loadSnapshot env) as [env1 snap]. cbn [fst snd] in *.
    cbn [cronTicks set_cronTicks]. rewrite num_or_zero.
    replace (cronTicks snap + 1 >=? CRON_THRESHOLD) with false
      by (symmetry; unfold CRON_THRESHOLD; lia).
    eexists. split; [reflexivity|]. cbn. auto. }
  destruct Htick as (snap' & -> & Hc' & Hcu).
  destruct (load_saved (fst (loadSnapshot env)) snap') as (L1 & _ & L3 & _).
  rewrite Hc' in L3.
  destruct (@crawlBatch_when_complete
              (saveSnapshot (fst (loadSnapshot env)) snap') BATCH_PAGES_DEFAULT L3)
    as (-> & _).
  rewrite saveSnapshot_fetched, Hf, L3, L1, Hcu.
  split; [reflexivity|]. split; [reflexivity|]. now apply num_or_some.
Qed.

Lemma completed_crawl_idles_witness :
  fetched_pages (trace (fst (scheduled
    (world (Some {| r_items := Some [named "node"]; r_seen := None;
                    r_cursor := Some 279; r_lastPage := Some 278;
                    r_complete := Some true; r_lastUpdated := Some 7;
                    r_cronTicks := Some 3 |}) plus_site)))) = [].
Proof.
  apply (proj1 (@completed_crawl_idles
    (world (Some {| r_items := Some [named "node"]; r_seen := None;
                    r_cursor := Some 279; r_lastPage := Some 278;
                    r_complete := Some true; r_lastUpdated := Some 7;
                    r_cronTicks := Some 3 |}) plus_site) eq_refl eq_refl)).
Defined.

(** ** Admin mutators *)

(** [POST /admin/set-lastpage]: a value that does not parse is refused
    with status 400 before anything is loaded or written.  A value that
    parses is stored as [lastPage], the cursor is kept, and the crawl is
    marked complete when the cursor is already beyond the new last page;
    from then on a batch fetches nothing and reports the end. *)
Theorem set_lastpage_effect (req : Request) (env : Env) :
  method req = "POST" ->
  pathname req = "/admin/set-lastpage" ->
  isAdmin req env = true ->
  (clampInt (searchParams_get (searchParams req) "value") 1 100000 None = None ->
   fetch req env =
     (env, {| status := 400; body := BError "missing or invalid ?value=" |})) /\
  (forall n,
      clampInt (searchParams_get (searchParams req) "value") 1 100000 None
        = Some n ->
      let env' := fst (fetch req env) in
      lastPage (snd (loadSnapshot env')) = Some n /\
      cursor_of env' = cursor_of env /\
      complete (snd (loadSnapshot env')) =
        (if cursor_of env >? n then true
         else complete (snd (loadSnapshot env))) /\
      (cursor_of env > n ->
       forall steps,
         fetched_pages (trace (fst (crawlBatch env' steps))) =
           fetched_pages (trace env) /\
         exists res, snd (crawlBatch env' steps) = Ok res /\
                     crawledPages res = 0 /\ reachedEnd res = true)).
Proof.
  intros Hm Hp Ha. split.
  - intros Hv. enter_admin_route Hm Hp Ha. now rewrite Hv.
  - intros n Hv env'. subst env'.
    pose proof (cursor_never_zero env) as Hz.
    pose proof (loadSnapshot_fetched env) as Hf.
    unfold cursor_of in *.
    enter_admin_route Hm Hp Ha. rewrite Hv.
    destruct (loadSnapshot env) as [env1 snap]. cbn [fst snd] in *.
    cbn [cursor set_lastPage]. rewrite (num_or_some _ Hz).
    match goal with |- context [saveSnapshot ?e ?s] =>
      destruct (load_saved e s) as (L1 & L2 & L3 & _);
      set (env2 := saveSnapshot e s) in * end.
    assert (Hcu : cursor (snd (loadSnapshot env2)) = cursor snap).
    { rewrite L1. destruct (cursor snap >? n); cbn; now apply num_or_some. }
    assert (Hlp : lastPage (snd (loadSnapshot env2)) = Some n)
      by (rewrite L2; now destruct (cursor snap >? n)).
    assert (Hco : complete (snd (loadSnapshot env2)) =
                  if cursor snap >? n then true else complete snap)
      by (rewrite L3; now destruct (cursor snap >? n)).
    split; [exact Hlp|]. split; [exact Hcu|]. split; [exact Hco|].
    intros Hgt steps.
    replace (cursor snap >? n) with true in Hco by (symmetry; lia).
    destruct (@crawlBatch_when_complete env2 steps Hco)
      as (-> & res & Hr & H0 & _ & Hend).
    split; [|now exists res].
    subst env2. now rewrite saveSnapshot_fetched.
Qed.

Lemma set_lastpage_effect_witness :
  fetch (request "POST" "/admin/set-lastpage" [("value", "two")]
                 (Some "secret")) node_world =
    (node_world,
     {| status := 400; body := BError "missing or invalid ?value=" |}) /\
  lastPage (snd (loadSnapshot (fst (fetch
    (request "POST" "/admin/set-lastpage" [("value", "2")] (Some "secret"))
    (world (Some {| r_items := Some [named "nginx"; named "node"];
                    r_seen := None; r_cursor := Some 3; r_lastPage := None;
                    r_complete := Some false; r_lastUpdated := Some 7;
                    r_cronTicks := Some 0 |}) quiet_site))))) = Some 2.
Proof.
  split.
  - apply (proj1 (@set_lastpage_effect
      (request "POST" "/admin/set-lastpage" [("value", "two")] (Some "secret"))
      node_world eq_refl eq_refl eq_refl)). reflexivity.
  - apply (proj2 (@set_lastpage_effect
      (request "POST" "/admin/set-lastpage" [("value", "2")] (Some "secret"))
      (world (Some {| r_items := Some [named "nginx"; named "node"];
                      r_seen := None; r_cursor := Some 3; r_lastPage := None;
                      r_complete := Some false; r_lastUpdated := Some 7;
                      r_cronTicks := Some 0 |}) quiet_site)
      eq_refl eq_refl eq_refl) 2). reflexivity.
Defined.

(** [POST /admin/reset] forgets everything: whatever the bucket held, the
    status reported afterwards is that of a fresh snapshot, no item,
    cursor 1, not complete, no last page, counter 0. *)
Theorem reset_then_status (req req' : Request) (env : Env) :
  method req = "POST" ->
  pathname req = "/admin/reset" ->
  isAdmin req env = true ->
  method req' <> "OPTIONS" ->
  pathname req' = "/v1/status" ->
  snd (fetch req env) = {| status := 200; body := BReset |} /\
  IMAGES_BUCKET (fst (fetch req env)) = Some (stringify (freshSnapshot env)) /\
  snd (fetch req' (fst (fetch req env))) =
    {| status := 200; body := BStatus 0 1 false None (clock env) 0 |}.
Proof.
  intros Hm Hp Ha Ho Hs. apply String.eqb_neq in Ho.
  assert (E : fetch req env =
              (saveSnapshot env (freshSnapshot env), json BReset 200))
    by (enter_admin_route Hm Hp Ha; reflexivity).
  rewrite E. cbn [fst snd]. split; [reflexivity|]. split; [reflexivity|].
  unfold fetch, route. rewrite Ho, Hs.
  cbn [String.eqb Ascii.eqb Bool.eqb orb andb negb].
  rewrite (@loadSnapshot_some (saveSnapshot env (freshSnapshot env))
             (stringify (freshSnapshot env)) eq_refl).
  cbn [snd]. unfold repair. cbn. unfold json, num_or, epoch.
  destruct (clock env =? 0) eqn:Z0; [apply Z.eqb_eq in Z0; now rewrite Z0|].
  reflexivity.
Qed.

Lemma reset_then_status_witness :
  snd (fetch (request "GET" "/v1/status" [] None)
             (fst (fetch (admin_post "/admin/reset") node_world))) =
  {| status := 200; body := BStatus 0 1 false None 1756300000 0 |}.
Proof.
  apply (proj2 (proj2 (@reset_then_status (admin_post "/admin/reset")
                         (request "GET" "/v1/status" [] None) node_world
                         eq_refl eq_refl eq_refl ltac:(discriminate) eq_refl))).
Defined.

(** [POST /admin/restart-crawl] rewinds the crawl and keeps the rest: the
    cursor is 1 and the crawl is open again, [lastPage] and the tick
    counter are as before, and the next batch asks for page 1, 2, ... *)
Theorem restart_rewinds (req : Request) (env : Env) :
  method req = "POST" ->
  pathname req = "/admin/restart-crawl" ->
  isAdmin req env = true ->
  let env' := fst (fetch req env) in
  cursor_of env' = 1 /\
  complete (snd (loadSnapshot env')) = false /\
  lastPage (snd (loadSnapshot env')) = lastPage (snd (loadSnapshot env)) /\
  cronTicks_of env' = cronTicks_of env /\
  forall steps, exists k : nat,
    (k <= Z.to_nat steps)%nat /\
    (0 < steps -> 1 <= hard_stop (snd (loadSnapshot env)) -> (1 <= k)%nat) /\
    fetched_pages (trace (fst (crawlBatch env' steps))) =
      fetched_pages (trace env) ++ pages_from 1 k.
Proof.
  intros Hm Hp Ha env'. subst env'.
  pose proof (loadSnapshot_fetched env) as Hf.
  unfold cronTicks_of, cursor_of.
  enter_admin_route Hm Hp Ha.
  destruct (loadSnapshot env) as [env1 snap]. cbn [fst snd] in *.
  match goal with |- context [saveSnapshot ?e ?s] =>
    destruct (load_saved e s) as (L1 & L2 & L3 & L4);
    assert (Hl : loadSnapshot (saveSnapshot e s) =
                 (saveSnapshot e s, snd (loadSnapshot (saveSnapshot e s))))
      by (now rewrite (@loadSnapshot_some (saveSnapshot e s) _ eq_refl));
    pose proof (saveSnapshot_fetched e s) as Hsf;
    remember (saveSnapshot e s) as env2 eqn:He2 end.
  cbn [cursor lastPage complete cronTicks set_complete set_cursor] in L1, L2, L3, L4.
  change (num_or (Some 1) 1) with 1 in L1.
  split; [exact L1|]. split; [exact L3|]. split; [exact L2|].
  split; [exact L4|].
  intros steps.
  destruct (@crawlBatch_trace env2 steps L3)
    as (k & tail & Hk & Hone & Htail & Ht).
  unfold cursor_of in Hone, Ht. rewrite L1 in Hone, Ht.
  exists k. split; [exact Hk|]. split.
  - intros Hs Hh. apply Hone; [exact Hs|].
    unfold hard_stop in *. rewrite L2. exact Hh.
  - rewrite Ht, Hl. cbn [fst].
    rewrite !fetched_pages_app, fetched_pages_fetches, Htail, app_nil_r.
    now rewrite Hsf, Hf.
Qed.

Lemma restart_rewinds_witness :
  cursor_of (fst (fetch (admin_post "/admin/restart-crawl")
                        (fst (crawlBatch plus_world 1)))) = 1.
Proof.
  apply (@restart_rewinds (admin_post "/admin/restart-crawl")
           (fst (crawlBatch plus_world 1)) eq_refl eq_refl eq_refl).
Defined.

(** ** The sort *)

(** [sortItems] hands back the same items, in the order of its comparator,
    and sorting a second time changes nothing. *)
Theorem sortItems_spec (l : list Item) :
  Permutation l (sortItems l) /\
  StronglySorted item_le (sortItems l) /\
  sortItems (sortItems l) = sortItems l.
Proof.
  split; [apply sortItems_perm|]. split; [apply sortItems_sorted|].
  apply sortItems_id, sortItems_sorted.
Qed.
